(** * Parsing-Documents: a shallow embedding of [utils.py]

    The development follows the order of the Python module:
    Python values and exceptions, the string helpers used by [clean_text],
    [parse_cells], [create_expanded_dataframe], [prepare_counter] and the
    document assembler [create_parsed_dictionary].

    Conventions.
    - A Python [str] is a Rocq [string]; one character stands for one code
      point below 256.
    - A Python [int] is a [Z].
    - A raised exception is the [Raise] case of [result]; the payload names
      the Python exception class.
    - The [dict] built by the assembler keeps insertion order, so it is an
      association list with the update discipline of a Python dict. *)

From Stdlib Require Import ZArith Ascii String List Lia DecimalString.
From Stdlib Require DecimalPos DecimalZ.
From stdpp Require Import base option list gmap strings.

Local Open Scope Z_scope.

(** ** Exceptions and results *)

Inductive exn : Type :=
| AttributeError   (* [match.groups()] on [None] *)
| ValueError       (* [max()] of an empty sequence *)
| IndexError       (* list or [iloc] index out of range *)
| KeyError         (* missing dict key *)
| ExternalError (msg : string). (* raised by a collaborator: page render, detection service *)

Inductive result (A : Type) : Type :=
| Return (a : A)
| Raise (e : exn).
Arguments Return {A} a.
Arguments Raise {A} e.

Global Instance result_ret : MRet result := fun A a => Return a.
Global Instance result_bind : MBind result := fun A B k m =>
  match m with
  | Return a => k a
  | Raise e => Raise e
  end.

(** [[f(x) for x in l]], stopping at the first exception. *)
Fixpoint mapR {A B : Type} (f : A → result B) (l : list A) : result (list B) :=
  match l with
  | [] => Return []
  | a :: l' => b ← f a; bs ← mapR f l'; Return (b :: bs)
  end.

(** [for x in l: st = body st x], stopping at the first exception. *)
Fixpoint foldR {S A : Type} (body : S → A → result S) (st : S) (l : list A) : result S :=
  match l with
  | [] => Return st
  | a :: l' => st' ← body st a; foldR body st' l'
  end.

(** ** Python string helpers *)

(** [str.isspace] on one character, for code points below 256:
    TAB..CR, FS..US, SPACE, NEL (0x85) and NBSP (0xA0). *)
Definition isspace (c : ascii) : bool :=
  let n := N_of_ascii c in
  (((9 <=? n) && (n <=? 13)) || ((28 <=? n) && (n <=? 32))
   || (n =? 133) || (n =? 160))%N.

Definition newline : ascii := "010"%char.
Definition space : ascii := " "%char.

(** [s.replace(old, new)] for one-character [old] and [new]. *)
Fixpoint str_replace (old new : ascii) (s : string) : string :=
  match s with
  | EmptyString => EmptyString
  | String c s' =>
      String (if Ascii.eqb c old then new else c) (str_replace old new s')
  end.

(** [s.split()]: maximal runs of non-whitespace characters. [cur] is the
    word being scanned. *)
Fixpoint str_split_go (cur : string) (s : string) : list string :=
  match s with
  | EmptyString => match cur with EmptyString => [] | _ => [cur] end
  | String c s' =>
      if isspace c
      then match cur with
           | EmptyString => str_split_go EmptyString s'
           | _ => cur :: str_split_go EmptyString s'
           end
      else str_split_go (cur +:+ String c EmptyString) s'
  end.

Definition str_split (s : string) : list string := str_split_go EmptyString s.

(** [sep.join(ws)] *)
Fixpoint str_join (sep : string) (ws : list string) : string :=
  match ws with
  | [] => EmptyString
  | [w] => w
  | w :: ws' => w +:+ sep +:+ str_join sep ws'
  end.

Fixpoint str_lstrip (s : string) : string :=
  match s with
  | EmptyString => EmptyString
  | String c s' => if isspace c then str_lstrip s' else s
  end.

Fixpoint str_rstrip (s : string) : string :=
  match s with
  | EmptyString => EmptyString
  | String c s' =>
      match str_rstrip s' with
      | EmptyString => if isspace c then EmptyString else String c EmptyString
      | r => String c r
      end
  end.

(** [s.strip()] *)
Definition str_strip (s : string) : string := str_rstrip (str_lstrip s).

(** ** [clean_text] *)

(** The [isinstance(text, str)] branch. *)
Definition clean_str (text : string) : string :=
  let text := str_replace newline space text in
  let text := str_join " " (str_split text) in
  str_strip text.

(** A Python value as [clean_text] sees it: a [str], or anything else. *)
Inductive pyval (O : Type) : Type :=
| PyStr (s : string)
| PyOther (o : O).
Arguments PyStr {O} s.
Arguments PyOther {O} o.

Definition clean_text {O : Type} (text : pyval O) : pyval O :=
  match text with
  | PyStr s => PyStr (clean_str s)
  | PyOther o => PyOther o
  end.

(** ** [parse_cells] *)

(** A parsed cell: the tuple [(row, col, rowspan, colspan, text)]. *)
Record cell : Type := Cell {
  row : Z;
  col : Z;
  rowspan : Z;
  colspan : Z;
  cell_text : string
}.

(** A literal piece of the pattern: the rest of the subject when [lit] is a
    prefix of it. *)
Fixpoint eat (lit s : string) : option string :=
  match lit, s with
  | EmptyString, _ => Some s
  | String a lit', String b s' => if Ascii.eqb a b then eat lit' s' else None
  | String _ _, EmptyString => None
  end.

Definition digit_val (c : ascii) : option Z :=
  let n := N_of_ascii c in
  if ((48 <=? n) && (n <=? 57))%N then Some (Z.of_N n - 48) else None.

Fixpoint eat_digits_go (acc : Z) (s : string) : Z * string :=
  match s with
  | String c s' =>
      match digit_val c with
      | Some d => eat_digits_go (10 * acc + d) s'
      | None => (acc, s)
      end
  | EmptyString => (acc, s)
  end.

(** The group [(\d+)] followed by [int(...)]: the greedy run of digits is
    always followed by a non-digit literal in the pattern, so no shorter
    run can match. *)
Definition eat_digits (s : string) : option (Z * string) :=
  match s with
  | String c s' =>
      match digit_val c with
      | Some d => Some (eat_digits_go d s')
      | None => None
      end
  | EmptyString => None
  end.

(** The group [(True|False)]. *)
Definition eat_bool (s : string) : option (bool * string) :=
  match eat "True" s with
  | Some s' => Some (true, s')
  | None => match eat "False" s with
            | Some s' => Some (false, s')
            | None => None
            end
  end.

(** [re.match] of the cell pattern at the start of [s]; the groups, with
    the four numbers already converted by [int]. *)
Definition match_cell (s : string) : option (Z * Z * Z * Z * bool * bool) :=
  s ← eat "<Cell: (" s;
  '(r, s) ← eat_digits s;
  s ← eat "," s;
  '(c, s) ← eat_digits s;
  s ← eat "), Span: (" s;
  '(rs, s) ← eat_digits s;
  s ← eat ", " s;
  '(cs, s) ← eat_digits s;
  s ← eat "), Column Header: " s;
  '(is_header, s) ← eat_bool s;
  s ← eat ", MergedCell: " s;
  '(is_merged, s) ← eat_bool s;
  _ ← eat ">" s;
  Some (r, c, rs, cs, is_header, is_merged).

(** [s.split(sep)] for a one-character separator: empty pieces are kept. *)
Fixpoint str_split_on (sep : ascii) (s : string) : list string :=
  match s with
  | EmptyString => [EmptyString]
  | String c s' =>
      if Ascii.eqb c sep then EmptyString :: str_split_on sep s'
      else match str_split_on sep s' with
           | w :: ws => String c w :: ws
           | [] => [String c EmptyString]
           end
  end.

(** [l[i]] for a literal index [i >= 0]. *)
Definition list_item {A : Type} (l : list A) (i : nat) : result A :=
  match l !! i with
  | Some a => Return a
  | None => Raise IndexError
  end.

(** One turn of the loop of [parse_cells]; [raw] is [str(cell)]. *)
Definition parse_cell (raw : string) : result cell :=
  match match_cell raw with
  | None => Raise AttributeError
  | Some (r, c, rs, cs, is_header, is_merged) =>
      piece ← list_item (str_split_on ">"%char raw) 1;
      Return (Cell r c rs cs (str_strip piece))
  end.

Definition parse_cells (raw_cells : list string) : result (list cell) :=
  mapR parse_cell raw_cells.

(** ** [create_expanded_dataframe] *)

(** [max(...)] of a generator of ints. *)
Definition py_max (l : list Z) : result Z :=
  match l with
  | [] => Raise ValueError
  | x :: l' => Return (foldl Z.max x l')
  end.

(** Resolution of a Python list index against a list of length [len]:
    negative indices count from the end. *)
Definition py_index (len : nat) (i : Z) : result nat :=
  if bool_decide (0 ≤ i < Z.of_nat len) then Return (Z.to_nat i)
  else if bool_decide (- Z.of_nat len ≤ i < 0) then Return (Z.to_nat (Z.of_nat len + i))
  else Raise IndexError.

Abbreviation grid := (list (list string)).

(** [table[i][j] = text] *)
Definition grid_set (table : grid) (i j : Z) (text : string) : result grid :=
  i' ← py_index (length table) i;
  line ← list_item table i';
  j' ← py_index (length line) j;
  Return (<[i' := <[j' := text]> line]> table).

(** The body of [for cell in cells]. *)
Definition fill_cell (table : grid) (c : cell) : result grid :=
  foldR (fun table r =>
    foldR (fun table k =>
      grid_set table (row c - 1 + r) (col c - 1 + k) (cell_text c))
      table (seqZ 0 (colspan c)))
    table (seqZ 0 (rowspan c)).

(** Lines 112-120: the list of lists [table] after the loop. *)
Definition build_table (cells : list cell) : result grid :=
  max_row ← py_max (row <$> cells);
  max_col ← py_max (col <$> cells);
  let table := replicate (Z.to_nat max_row) (replicate (Z.to_nat max_col) EmptyString) in
  foldR fill_cell table cells.

(** What the assembler uses of a [DataFrame]: the column labels and the
    rows, in order. *)
Record dataframe : Type := DataFrame {
  columns : list string;
  rows : list (list string)
}.

(** [df.columns = df.iloc[0]; df = df.drop(0)]: [iloc[0]] raises on a
    frame without rows. *)
Definition create_expanded_dataframe (cells : list cell) : result dataframe :=
  table ← build_table cells;
  match table with
  | [] => Raise IndexError
  | header :: data => Return (DataFrame header data)
  end.

(** ** [prepare_counter] *)

(** [el.metadata]: the page number and the corner points of the bounding
    polygon. The points are only handed to the page renderer. *)
Record Metadata : Type := {
  page_number : Z;
  points : list (Z * Z)
}.

Record element : Type := Element {
  category : string;
  text : string;
  metadata : Metadata
}.

(** [collections.Counter(l)] and [counter[t]], which is 0 for a missing key. *)
Definition Counter (l : list string) : gmap string nat :=
  foldl (fun m t => <[t := S (default 0%nat (m !! t))]> m) ∅ l.

Definition counter_get (m : gmap string nat) (t : string) : nat :=
  default 0%nat (m !! t).

Definition texts_of (cat : string) (elements : list element) : list string :=
  text <$> filter (fun el => category el = cat) elements.

Definition prepare_counter (elements : list element) : gmap string nat :=
  let titles_text := texts_of "Title" elements in
  let text_text := texts_of "Text" elements in
  let narrtext_text := texts_of "NarrativeText" elements in
  let all_text := titles_text ++ narrtext_text ++ text_text in
  Counter all_text.

(** ** [create_parsed_dictionary] *)

(** The dict [parsed_doc]: page key to accumulated text, in insertion order. *)
Abbreviation pydict := (list (string * string)).

Fixpoint dict_get (k : string) (d : pydict) : option string :=
  match d with
  | [] => None
  | (k', v) :: d' => if decide (k' = k) then Some v else dict_get k d'
  end.

(** [d[k] = v]: an existing key keeps its position, a new key goes last. *)
Fixpoint dict_set (k v : string) (d : pydict) : pydict :=
  match d with
  | [] => [(k, v)]
  | (k', v') :: d' =>
      if decide (k' = k) then (k', v) :: d' else (k', v') :: dict_set k v d'
  end.

(** [d[k] += s] *)
Definition dict_iadd (k s : string) (d : pydict) : result pydict :=
  match dict_get k d with
  | None => Raise KeyError
  | Some v => Return (dict_set k (v +:+ s) d)
  end.

(** [str(n)] for an int. *)
Definition str_of_int (n : Z) : string := NilZero.string_of_int (Z.to_int n).

(** [f"page_{page_number}"] *)
Definition page_key (n : Z) : string := "page_" +:+ str_of_int n.

(** The loop variables of the assembler, and the number of calls made to the
    table-detection collaborator so far. *)
Record state : Type := State {
  parsed_doc : pydict;
  curr_page : string;
  st_page_number : Z;
  calls : nat
}.

Definition init_state : state := State [("page_1", EmptyString)] "page_1" 1 0.

(** [all_counter[t] < 10 and all_counter[t] != 0] *)
Definition keep_text (all_counter : gmap string nat) (t : string) : bool :=
  let n := counter_get all_counter t in
  (n <? 10)%nat && negb (n =? 0)%nat.

Definition nl : string := String newline EmptyString.

Section Assembler.
(** The two collaborators of the [Table] branch.
    [analyze pdf_path k page_number coords] is the outcome of the [k]-th
    pair of calls [extract_page_as_image(pdf_path, page_number,
    'output.png', coords)] and [extractor.analyze_document(...)]: an
    exception, or for each detected table the [str] of its cells.
    [to_markdown] is [DataFrame.to_markdown(index=False)]. *)
Variable analyze : string → nat → Z → list (Z * Z) → result (list (list string)).
Variable to_markdown : dataframe → string.

Variable all_counter : gmap string nat.
Variable pdf_path : string.

(** [parsed_doc[curr_page] += t; parsed_doc[curr_page] += sep] *)
Definition append_text (st : state) (t sep : string) : result state :=
  d ← dict_iadd (curr_page st) t (parsed_doc st);
  d ← dict_iadd (curr_page st) sep d;
  Return (State d (curr_page st) (st_page_number st) (calls st)).

(** The body of [for k in range(len(document.tables))]. *)
Definition render_table (cur : string) (d : pydict) (raw_cells : list string)
  : result pydict :=
  parsed_cells ← parse_cells raw_cells;
  df ← create_expanded_dataframe parsed_cells;
  let df_cleaned :=
    DataFrame (clean_str <$> columns df) (map clean_str <$> rows df) in
  d ← dict_iadd cur (to_markdown df_cleaned) d;
  dict_iadd cur nl d.

(** The [Table] branch. The removal of ['output.png'] at its end touches
    none of the loop variables and is left out. *)
Definition process_table (st : state) (el : element) : result state :=
  d ← dict_iadd (curr_page st) nl (parsed_doc st);
  let page_number := page_number (metadata el) in
  let coords := points (metadata el) in
  tables ← analyze pdf_path (calls st) page_number coords;
  d ← foldR (render_table (curr_page st)) d tables;
  Return (State d (curr_page st) page_number (S (calls st))).

(** The body of [for el in elements]. *)
Definition step (st : state) (el : element) : result state :=
  if decide (category el = "PageBreak") then
    let page_number := st_page_number st + 1 in
    let curr_page := page_key page_number in
    Return (State (dict_set curr_page EmptyString (parsed_doc st))
                  curr_page page_number (calls st))
  else if decide (category el = "ListItem") then
    if keep_text all_counter (text el) then append_text st (text el) nl
    else Return st
  else if decide (category el = "NarrativeText") then
    if keep_text all_counter (text el) then append_text st (text el) " "
    else Return st
  else if decide (category el = "Table") then
    process_table st el
  else if decide (category el = "Text") then
    if keep_text all_counter (text el) then append_text st (text el) " "
    else Return st
  else if decide (category el = "Title") then
    if bool_decide (st_page_number st = 1) then append_text st (text el) nl
    else if keep_text all_counter (text el) then append_text st (text el) nl
    else Return st
  else Return st.

Definition run (elements : list element) : result state :=
  foldR step init_state elements.

(** [{k: v for k, v in parsed_doc.items() if v}] *)
Definition prune (d : pydict) : pydict :=
  filter (fun kv => kv.2 ≠ EmptyString) d.

Definition create_parsed_dictionary (elements : list element) : result pydict :=
  st ← run elements;
  Return (prune (parsed_doc st)).
End Assembler.

(** ** Vocabulary of the statements *)

(** No character of [s] is whitespace. *)
Fixpoint no_space (s : string) : bool :=
  match s with
  | EmptyString => true
  | String c s' => negb (isspace c) && no_space s'
  end.

(** What [str.split()] returns: non-empty and free of whitespace. *)
Definition is_word (w : string) : Prop := w ≠ EmptyString ∧ no_space w = true.

(** [m] is the maximum of the non-empty list [l]. *)
Definition is_max (m : Z) (l : list Z) : Prop := m ∈ l ∧ Forall (fun x => x ≤ m) l.

(** The footprint of a cell in 0-based grid coordinates:
    [[row-1, row-1+rowspan) x [col-1, col-1+colspan)]. *)
Definition covers (c : cell) (i j : Z) : Prop :=
  row c - 1 ≤ i < row c - 1 + rowspan c ∧ col c - 1 ≤ j < col c - 1 + colspan c.

(** Every footprint position of [c] lies in [[0,R) x [0,C)]. *)
Definition inside (R C : Z) (c : cell) : Prop :=
  ∀ i j, covers c i j → 0 ≤ i < R ∧ 0 ≤ j < C.

(** The positions the loops of [fill_cell] index, in order. *)
Definition footprint (c : cell) : list (Z * Z) :=
  r ← seqZ 0 (rowspan c); k ← seqZ 0 (colspan c); [(row c - 1 + r, col c - 1 + k)].

(** The last cell of [cells], in input order, whose footprint contains
    [(i, j)]. *)
Definition last_cover (cells : list cell) (i j : Z) : option cell :=
  last (filter (fun c => covers c i j) cells).

(** [g[i][j]], when both indices are in range. *)
Definition cell_at (g : grid) (i j : nat) : option string :=
  line ← g !! i; line !! j.

(** [g] has [R] rows of [C] columns each. *)
Definition rect (R C : nat) (g : grid) : Prop :=
  length g = R ∧ Forall (fun line => length line = C) g.

Global Instance covers_dec c i j : Decision (covers c i j).
Proof. unfold covers. apply _. Defined.

(** One assignment [table[p.1][p.2] = t] of the inner loop. *)
Definition assign (t : string) (g : grid) (p : Z * Z) : result grid :=
  grid_set g p.1 p.2 t.

(** The text accumulated so far under the current page key. *)
Definition page_text (st : state) : string :=
  default EmptyString (dict_get (curr_page st) (parsed_doc st)).

(** [st] with the entry of the current page replaced by [s]. *)
Definition with_page_text (st : state) (s : string) : state :=
  State (dict_set (curr_page st) s (parsed_doc st))
        (curr_page st) (st_page_number st) (calls st).

(** The keys of the dict are distinct and the current page is one of them. *)
Definition wf_doc (cur : string) (d : pydict) : Prop :=
  NoDup d.*1 ∧ is_Some (dict_get cur d).

Definition wf_state (st : state) : Prop := wf_doc (curr_page st) (parsed_doc st).

(** The number of elements of [l] equal to [t]. *)
Definition occurrences (t : string) (l : list string) : nat :=
  length (filter (fun x => x = t) l).

(** ** Sample collaborators and elements for the examples *)

(** A detection service that finds no table. *)
Definition analyze_none : string → nat → Z → list (Z * Z) → result (list (list string)) :=
  fun _ _ _ _ => Return [].

(** A detection service that is unreachable. *)
Definition analyze_down : string → nat → Z → list (Z * Z) → result (list (list string)) :=
  fun _ _ _ _ => Raise (ExternalError "timeout").

(** A detection service that returns one table with the given cells. *)
Definition analyze_cells (raw_cells : list string)
  : string → nat → Z → list (Z * Z) → result (list (list string)) :=
  fun _ _ _ _ => Return [raw_cells].

(** A renderer that writes the rows one per line, cells separated by [|]. *)
Definition render_rows (df : dataframe) : string :=
  str_join nl (str_join "|" <$> (columns df :: rows df)).

Definition no_metadata : Metadata := {| page_number := 1; points := [] |}.
Definition on_page (n : Z) : Metadata := {| page_number := n; points := [(0, 0); (10, 10)] |}.

Definition PageBreak : element := Element "PageBreak" "" no_metadata.
Definition Title (t : string) : element := Element "Title" t no_metadata.
Definition Text (t : string) : element := Element "Text" t no_metadata.
Definition NarrativeText (t : string) : element := Element "NarrativeText" t no_metadata.
Definition ListItem (t : string) : element := Element "ListItem" t no_metadata.
Definition Table (n : Z) : element := Element "Table" "" (on_page n).

(** ** Further vocabulary *)

(** Every character of [s] is whitespace. *)
Fixpoint is_blank (s : string) : bool :=
  match s with
  | EmptyString => true
  | String c s' => isspace c && is_blank s'
  end.

(** [c in s] *)
Fixpoint char_in (c : ascii) (s : string) : bool :=
  match s with
  | EmptyString => false
  | String a s' => Ascii.eqb a c || char_in c s'
  end.

(** [str(b)] for a bool. *)
Definition str_of_bool (b : bool) : string := if b then "True" else "False".

(** A string that the pattern of [parse_cells] matches: the pattern with
    its six groups filled in. *)
Definition cell_repr (r c rs cs : Z) (is_header is_merged : bool) : string :=
  "<Cell: (" +:+ str_of_int r +:+ "," +:+ str_of_int c
  +:+ "), Span: (" +:+ str_of_int rs +:+ ", " +:+ str_of_int cs
  +:+ "), Column Header: " +:+ str_of_bool is_header
  +:+ ", MergedCell: " +:+ str_of_bool is_merged +:+ ">".

(** The part of [s] before its first [sep], all of [s] when there is none:
    [s.split(sep)[0]]. *)
Fixpoint str_before (sep : ascii) (s : string) : string :=
  match s with
  | EmptyString => EmptyString
  | String c s' => if Ascii.eqb c sep then EmptyString else String c (str_before sep s')
  end.

(** [s] does not begin with a decimal digit. *)
Definition no_digit_ahead (s : string) : Prop :=
  match s with
  | EmptyString => True
  | String c _ => digit_val c = None
  end.

(** The categories whose texts [prepare_counter] counts. *)
Definition counted (el : element) : Prop :=
  category el = "Title" ∨ category el = "NarrativeText" ∨ category el = "Text".

Global Instance counted_dec el : Decision (counted el).
Proof. unfold counted. apply _. Defined.

(** The categories that have a branch in [create_parsed_dictionary]. *)
Definition handled (el : element) : Prop :=
  category el ∈ ["PageBreak"; "ListItem"; "NarrativeText"; "Table"; "Text"; "Title"].

Global Instance handled_dec el : Decision (handled el).
Proof. unfold handled. apply _. Defined.

(** [main] of [main_cron.py] between [partition_pdf] and
    [save_parsed_document]: the counter is built from the elements that
    are then assembled. *)
Definition parse_document
    (analyze : string → nat → Z → list (Z * Z) → result (list (list string)))
    (to_markdown : dataframe → string) (pdf_path : string)
    (elements : list element) : result pydict :=
  let all_counter := prepare_counter elements in
  create_parsed_dictionary analyze to_markdown all_counter pdf_path elements.

(** [df.applymap(clean_text)] followed by the cleaning of the labels. *)
Definition clean_frame (df : dataframe) : dataframe :=
  DataFrame (clean_str <$> columns df) (map clean_str <$> rows df).

(** What one detected table contributes to the page: its rendering and a
    newline. *)
Definition table_block (to_markdown : dataframe → string) (df : dataframe) : string :=
  to_markdown (clean_frame df) +:+ nl.

(** [''.join(l)] *)
Definition str_concat (l : list string) : string := foldr String.append EmptyString l.

(** The frame of one detected table: [parse_cells] followed by
    [create_expanded_dataframe]. *)
Definition frame_of (raw_cells : list string) : result dataframe :=
  parsed_cells ← parse_cells raw_cells;
  create_expanded_dataframe parsed_cells.

(** The number of [PageBreak] elements. *)
Definition page_breaks (elements : list element) : nat :=
  length (filter (fun el => category el = "PageBreak") elements).

(** The pages created so far are [page_1 .. page_n], in this order, and
    the current page is the last one. *)
Definition contiguous (st : state) : Prop :=
  wf_state st ∧ 0 ≤ st_page_number st
  ∧ curr_page st = page_key (st_page_number st)
  ∧ (parsed_doc st).*1 = page_key <$> seqZ 1 (st_page_number st).

(** Every key of the dict is the key of a page number. *)
Definition page_keys_only (st : state) : Prop :=
  wf_state st ∧ Forall (fun k => ∃ n, k = page_key n) (parsed_doc st).*1.

(** ** [extract_page_as_image] *)

(** [min(...)] of a generator of numbers. *)
Definition py_min (l : list Z) : result Z :=
  match l with
  | [] => Raise ValueError
  | x :: l' => Return (foldl Z.min x l')
  end.

Definition is_min (m : Z) (l : list Z) : Prop := m ∈ l ∧ Forall (fun x => m ≤ x) l.

(** The crop of [utils.py], lines 47-61, for points with integer
    coordinates: the box handed to [Image.crop], or [None] when
    [crop_coords] is empty and the page is saved whole. [width] and
    [height] are the size of the rendered page and [extra_margin_px] is
    the value of [int(extra_margin_mm * dpi / 25.4)], which is 0 for the
    default margin used by the assembler. *)
Definition crop_box (width height extra_margin_px : Z) (crop_coords : list (Z * Z))
  : result (option (Z * Z * Z * Z)) :=
  match crop_coords with
  | [] => Return None
  | _ =>
      left ← py_min (fst <$> crop_coords);
      top ← py_min (snd <$> crop_coords);
      right ← py_max (fst <$> crop_coords);
      bottom ← py_max (snd <$> crop_coords);
      let left := left - extra_margin_px in
      let top := top - extra_margin_px in
      let right := right + extra_margin_px in
      let bottom := bottom + extra_margin_px in
      let left := Z.max 0 left in
      let top := Z.max 0 top in
      let right := Z.min width right in
      let bottom := Z.min height bottom in
      Return (Some (left, top, right, bottom))
  end.

(** The crop of [parse_document.py], lines 14-19: the bounding box of the
    points, neither widened nor clamped. *)
Definition crop_box_plain (crop_coords : list (Z * Z))
  : result (option (Z * Z * Z * Z)) :=
  match crop_coords with
  | [] => Return None
  | _ =>
      left ← py_min (fst <$> crop_coords);
      top ← py_min (snd <$> crop_coords);
      right ← py_max (fst <$> crop_coords);
      bottom ← py_max (snd <$> crop_coords);
      Return (Some (left, top, right, bottom))
  end.

(** ** The output path of [parse_document.py] *)

(** [old in s] *)
Fixpoint occurs (old s : string) : bool :=
  String.prefix old s
  || match s with
     | EmptyString => false
     | String _ s' => occurs old s'
     end.

(** [s.replace(old, new)] for a non-empty [old]: the occurrences are
    replaced from the left and do not overlap; [skip] counts the characters
    of a replaced occurrence still to pass. *)
Fixpoint str_replace_all_go (skip : nat) (old new s : string) : string :=
  match s with
  | EmptyString => EmptyString
  | String c s' =>
      match skip with
      | S k => str_replace_all_go k old new s'
      | O =>
          if String.prefix old s
          then new +:+ str_replace_all_go (String.length old - 1) old new s'
          else String c (str_replace_all_go 0 old new s')
      end
  end.

Definition str_replace_all (old new s : string) : string :=
  str_replace_all_go 0 old new s.

(** [args.document_path.replace('.pdf', '.json')] *)
Definition json_path (document_path : string) : string :=
  str_replace_all ".pdf" ".json" document_path.

(** ** The assembler of [parse_document.py] *)

Module ParseDocument.
Section Assembler.
(** [analyze pdf_path k page_number coords] is the outcome of the [k]-th
    round of calls of the [Table] branch: [Textractor(...)],
    [extract_page_as_image], [analyze_document] and, for each detected
    table, [to_pandas().to_html()]. *)
Variable analyze : string → nat → Z → list (Z * Z) → result (list string).
Variable all_counter : gmap string nat.
Variable pdf_path : string.

(** The body of [for k in range(len(document.tables))]. *)
Definition add_table (cur : string) (d : pydict) (table_format : string)
  : result pydict :=
  d ← dict_iadd cur table_format d;
  dict_iadd cur nl d.

(** The [Table] branch. *)
Definition process_table (st : state) (el : element) : result state :=
  d ← dict_iadd (curr_page st) nl (parsed_doc st);
  let page_number := page_number (metadata el) in
  let coords := points (metadata el) in
  tables ← analyze pdf_path (calls st) page_number coords;
  d ← foldR (add_table (curr_page st)) d tables;
  Return (State d (curr_page st) page_number (S (calls st))).

(** The body of [for el in elements]. *)
Definition step (st : state) (el : element) : result state :=
  if decide (category el = "PageBreak") then
    let page_number := st_page_number st + 1 in
    let curr_page := page_key page_number in
    Return (State (dict_set curr_page EmptyString (parsed_doc st))
                  curr_page page_number (calls st))
  else if decide (category el = "ListItem") then
    if keep_text all_counter (text el) then append_text st (text el) nl
    else Return st
  else if decide (category el = "NarrativeText") then
    if keep_text all_counter (text el) then append_text st (text el) " "
    else Return st
  else if decide (category el = "Table") then
    process_table st el
  else if decide (category el = "Text") then
    if keep_text all_counter (text el) then append_text st (text el) " "
    else Return st
  else if decide (category el = "Title") then
    if bool_decide (st_page_number st = 1) then append_text st (text el) nl
    else if keep_text all_counter (text el) then append_text st (text el) nl
    else Return st
  else Return st.

Definition run (elements : list element) : result state :=
  foldR step init_state elements.

Definition create_parsed_dictionary (elements : list element) : result pydict :=
  st ← run elements;
  Return (prune (parsed_doc st)).
End Assembler.
End ParseDocument.

(** A service of [parse_document.py] that is unreachable, and one that
    returns the given renderings. *)
Definition html_down : string → nat → Z → list (Z * Z) → result (list string) :=
  fun _ _ _ _ => Raise (ExternalError "timeout").
Definition html_tables (tables : list string)
  : string → nat → Z → list (Z * Z) → result (list string) :=
  fun _ _ _ _ => Return tables.

(** * Properties *)

(** ** Strings *)

Section StringFacts.
Implicit Types (s t w cur : string) (c : ascii) (ws : list string).

Lemma app_cons c s t : String c s +:+ t = String c (s +:+ t).
Proof. reflexivity. Qed.

Lemma app_nil_l s : EmptyString +:+ s = s.
Proof. reflexivity. Qed.

Lemma app_nil_r s : s +:+ EmptyString = s.
Proof. induction s as [|c s IH]; [done|]. by rewrite app_cons, IH. Qed.

Lemma app_assoc s t w : (s +:+ t) +:+ w = s +:+ (t +:+ w).
Proof. induction s as [|c s IH]; [done|]. by rewrite !app_cons, IH. Qed.

Lemma no_space_app s t : no_space (s +:+ t) = no_space s && no_space t.
Proof.
  induction s as [|c s IH]; [done|].
  rewrite app_cons. simpl. rewrite IH. by rewrite andb_assoc.
Qed.

Lemma isspace_newline : isspace newline = true.
Proof. reflexivity. Qed.

(** *** [replace] *)

Lemma str_replace_app old new s t :
  str_replace old new (s +:+ t) = str_replace old new s +:+ str_replace old new t.
Proof.
  induction s as [|c s IH]; [done|].
  rewrite app_cons. simpl. by rewrite IH.
Qed.

Lemma str_replace_no_space s :
  no_space s = true → str_replace newline space s = s.
Proof.
  induction s as [|c s IH]; [done|]. simpl.
  intros [Hc Hs]%andb_true_iff.
  rewrite IH by done.
  destruct (Ascii.eqb_spec c newline) as [->|]; [|done].
  by rewrite isspace_newline in Hc.
Qed.

(** *** [split] *)

Lemma str_split_go_words s cur :
  no_space cur = true → Forall is_word (str_split_go cur s).
Proof.
  revert cur. induction s as [|c s IH]; intros cur Hcur; simpl.
  - destruct cur; [constructor|]. by repeat constructor.
  - destruct (isspace c) eqn:Hc.
    + destruct cur; [by apply IH|].
      constructor; [done|by apply IH].
    + apply IH. rewrite no_space_app, Hcur. simpl. by rewrite Hc.
Qed.

Lemma str_split_words s : Forall is_word (str_split s).
Proof. by apply str_split_go_words. Qed.

Lemma str_split_go_app w cur s :
  no_space w = true →
  str_split_go cur (w +:+ s) = str_split_go (cur +:+ w) s.
Proof.
  revert cur. induction w as [|c w IH]; intros cur Hw.
  - by rewrite app_nil_l, app_nil_r.
  - simpl in Hw. apply andb_true_iff in Hw as [Hc Hw].
    rewrite app_cons. simpl. apply negb_true_iff in Hc. rewrite Hc.
    rewrite IH by done. by rewrite app_assoc.
Qed.

Lemma str_split_go_space cur s :
  cur ≠ EmptyString →
  str_split_go cur (" " +:+ s) = cur :: str_split_go EmptyString s.
Proof. by destruct cur. Qed.

Lemma str_split_join ws :
  Forall is_word ws → str_split (str_join " " ws) = ws.
Proof.
  unfold str_split.
  induction 1 as [|w ws [Hne Hw] Hws IH]; [done|].
  destruct ws as [|w' ws].
  - simpl. rewrite <- (app_nil_r w) at 1.
    rewrite str_split_go_app by done. simpl. by destruct w.
  - change (str_join " " (w :: w' :: ws))
      with (w +:+ " " +:+ str_join " " (w' :: ws)).
    rewrite str_split_go_app by done. rewrite app_nil_l.
    rewrite str_split_go_space by done. by rewrite IH.
Qed.

(** *** [strip] *)

Lemma str_lstrip_word_app w s : is_word w → str_lstrip (w +:+ s) = w +:+ s.
Proof.
  intros [Hne Hw]. destruct w as [|c w]; [done|].
  simpl in Hw. apply andb_true_iff in Hw as [Hc _].
  apply negb_true_iff in Hc. rewrite app_cons. simpl. by rewrite Hc.
Qed.

Lemma str_rstrip_word w : is_word w → str_rstrip w = w.
Proof.
  intros [Hne Hw]. induction w as [|c w IH]; [done|].
  simpl in Hw. apply andb_true_iff in Hw as [Hc Hw].
  apply negb_true_iff in Hc. simpl.
  destruct w as [|c' w].
  - simpl. by rewrite Hc.
  - rewrite IH by done. done.
Qed.

Lemma str_rstrip_app s t :
  t ≠ EmptyString → str_rstrip t = t → str_rstrip (s +:+ t) = s +:+ t.
Proof.
  intros Hne Ht. induction s as [|c s IH]; [done|].
  rewrite app_cons. simpl. rewrite IH.
  destruct (s +:+ t) eqn:E; [|done].
  destruct s; [by rewrite app_nil_l in E|done].
Qed.

Lemma str_join_words_ne w ws :
  is_word w → str_join " " (w :: ws) ≠ EmptyString.
Proof.
  intros [Hne _]. destruct ws; simpl; [done|]. by destruct w.
Qed.

Lemma str_rstrip_join ws :
  Forall is_word ws → str_rstrip (str_join " " ws) = str_join " " ws.
Proof.
  induction 1 as [|w ws Hw Hws IH]; [done|].
  destruct ws as [|w' ws]; [by apply str_rstrip_word|].
  change (str_join " " (w :: w' :: ws))
    with (w +:+ " " +:+ str_join " " (w' :: ws)).
  rewrite <- app_assoc. apply str_rstrip_app; [|done].
  apply str_join_words_ne. by inversion Hws.
Qed.

Lemma str_lstrip_join ws :
  Forall is_word ws → str_lstrip (str_join " " ws) = str_join " " ws.
Proof.
  destruct 1 as [|w ws Hw Hws]; [done|].
  destruct ws as [|w' ws].
  - simpl. rewrite <- (app_nil_r w). by apply str_lstrip_word_app.
  - by apply str_lstrip_word_app.
Qed.

Lemma str_strip_join ws :
  Forall is_word ws → str_strip (str_join " " ws) = str_join " " ws.
Proof.
  intros Hws. unfold str_strip.
  by rewrite str_lstrip_join, str_rstrip_join.
Qed.

Lemma str_replace_join ws :
  Forall is_word ws →
  str_replace newline space (str_join " " ws) = str_join " " ws.
Proof.
  induction 1 as [|w ws [Hne Hw] Hws IH]; [done|].
  destruct ws as [|w' ws]; [by apply str_replace_no_space|].
  change (str_join " " (w :: w' :: ws))
    with (w +:+ " " +:+ str_join " " (w' :: ws)).
  rewrite !str_replace_app, IH, str_replace_no_space by done.
  done.
Qed.

(** [clean_str] returns the words of its argument joined by single
    spaces. *)
Lemma clean_str_join s :
  clean_str s = str_join " " (str_split (str_replace newline space s)).
Proof. unfold clean_str. apply str_strip_join, str_split_words. Qed.

Lemma clean_str_idempotent s : clean_str (clean_str s) = clean_str s.
Proof.
  rewrite (clean_str_join s).
  set (ws := str_split (str_replace newline space s)).
  assert (Forall is_word ws) as Hws by apply str_split_words.
  rewrite clean_str_join, str_replace_join, str_split_join by done.
  done.
Qed.
End StringFacts.

(** C7. The text normalizer [clean_text] is idempotent on every input: a
    string is mapped to its whitespace-separated words joined by single
    spaces, on which a second pass changes nothing, and a value that is not
    a string is returned as it is. *)
Theorem clean_text_idempotent {O : Type} (x : pyval O) :
  clean_text (clean_text x) = clean_text x.
Proof.
  destruct x as [s|o]; simpl; [|done].
  by rewrite clean_str_idempotent.
Qed.

(** ** Grid expansion *)

Section ResultFacts.
Context {S A : Type}.

Lemma foldR_cons (body : S → A → result S) (st : S) (a : A) (l : list A) :
  foldR body st (a :: l) = st' ← body st a; foldR body st' l.
Proof. reflexivity. Qed.

Lemma foldR_app (body : S → A → result S) (st : S) (l1 l2 : list A) :
  foldR body st (l1 ++ l2) = st' ← foldR body st l1; foldR body st' l2.
Proof.
  revert st. induction l1 as [|a l1 IH]; intros st; [done|].
  simpl. destruct (body st a) as [st1|e]; simpl; [apply IH|done].
Qed.

Lemma foldR_raise (body : S → A → result S) (st st1 : S) (l1 l2 : list A) a e :
  foldR body st l1 = Return st1 → body st1 a = Raise e →
  foldR body st (l1 ++ a :: l2) = Raise e.
Proof. intros H1 H2. rewrite foldR_app, H1. simpl. by rewrite H2. Qed.
End ResultFacts.

Lemma foldR_nested {S A B : Type} (body : S → A * B → result S)
    (st : S) (l : list A) (h : list B) :
  foldR (fun st a => foldR (fun st b => body st (a, b)) st h) st l
  = foldR body st (a ← l; b ← h; [(a, b)]).
Proof.
  revert st. induction l as [|a l IH]; intros st; [done|].
  change (mbind ?f (a :: l)) with (f a ++ mbind f l).
  rewrite foldR_app. simpl foldR at 1.
  assert (foldR (fun st b => body st (a, b)) st h
          = foldR body st (b ← h; [(a, b)])) as ->.
  { clear. revert st. induction h as [|b h IHh]; intros st; [done|].
    simpl. destruct (body st (a, b)); simpl; [apply IHh|done]. }
  destruct (foldR body st _); simpl; [apply IH|done].
Qed.

Section GridFacts.
Implicit Types (g : grid) (c : cell) (cells : list cell) (p : Z * Z).

(** *** [max] *)

Lemma foldl_max_spec (l : list Z) (x : Z) : is_max (foldl Z.max x l) (x :: l).
Proof.
  revert x. induction l as [|y l IH]; intros x; simpl.
  - split; [by left|]. by repeat constructor.
  - destruct (IH (x `max` y)) as [Hin Hle]. split.
    + apply elem_of_cons in Hin as [->|Hin]; [|by do 2 right].
      destruct (Z.max_spec x y) as [[_ ->]|[_ ->]]; [right|]; by left.
    + inversion_clear Hle as [|?? Hxy Hl].
      repeat constructor; [lia|lia|done].
Qed.

Lemma py_max_spec (l : list Z) :
  l ≠ [] → ∃ m, py_max l = Return m ∧ is_max m l.
Proof.
  destruct l as [|x l]; [done|]. intros _.
  eexists; split; [done|]. apply foldl_max_spec.
Qed.

Lemma is_max_unique (l : list Z) (m m' : Z) : is_max m l → is_max m' l → m = m'.
Proof.
  intros [Hin Hle] [Hin' Hle']. rewrite Forall_forall in Hle, Hle'.
  apply Hle' in Hin. apply Hle in Hin'. lia.
Qed.

Lemma py_max_is_max (l : list Z) (m : Z) : is_max m l → py_max l = Return m.
Proof.
  intros Hm. destruct (py_max_spec l) as (m' & -> & Hm').
  - intros ->. destruct Hm as [Hin _]. by apply elem_of_nil in Hin.
  - f_equal. by eapply is_max_unique.
Qed.

(** *** One assignment [table[i][j] = text] *)

Lemma py_index_in (len : nat) (i : Z) :
  0 ≤ i < Z.of_nat len → py_index len i = Return (Z.to_nat i).
Proof. intros Hi. unfold py_index. by rewrite bool_decide_eq_true_2. Qed.

Lemma py_index_over (len : nat) (i : Z) :
  Z.of_nat len ≤ i → py_index len i = Raise IndexError.
Proof.
  intros Hi. unfold py_index.
  rewrite !bool_decide_eq_false_2 by lia. done.
Qed.

Lemma grid_set_in R C g i j t :
  rect R C g → 0 ≤ i < Z.of_nat R → 0 ≤ j < Z.of_nat C →
  ∃ g', grid_set g i j t = Return g' ∧ rect R C g' ∧
    ∀ i' j', cell_at g' i' j' =
      if decide (Z.of_nat i' = i ∧ Z.of_nat j' = j) then Some t
      else cell_at g i' j'.
Proof.
  intros [Hlen Hrows] Hi Hj. unfold grid_set.
  rewrite py_index_in by lia. simpl.
  destruct (lookup_lt_is_Some_2 g (Z.to_nat i)) as [line Hline]; [lia|].
  unfold list_item. rewrite Hline. simpl.
  assert (length line = C) as Hl.
  { rewrite Forall_lookup in Hrows. by eapply Hrows. }
  rewrite py_index_in by lia. simpl.
  eexists; split; [done|]. split.
  - split; [by rewrite length_insert|].
    apply Forall_insert; [done|]. by rewrite length_insert.
  - intros i' j'. unfold cell_at.
    destruct (decide (i' = Z.to_nat i)) as [->|Hne].
    + rewrite list_lookup_insert_eq by lia. simpl. rewrite Hline. simpl.
      destruct (decide (j' = Z.to_nat j)) as [->|Hne'].
      * rewrite list_lookup_insert_eq by lia.
        rewrite decide_True by lia. done.
      * rewrite list_lookup_insert_ne by done.
        rewrite decide_False by lia. done.
    + rewrite list_lookup_insert_ne by done.
      rewrite decide_False by lia. done.
Qed.

Lemma grid_set_out R C g i j t :
  rect R C g → 0 ≤ i → 0 ≤ j → ¬ (i < Z.of_nat R ∧ j < Z.of_nat C) →
  grid_set g i j t = Raise IndexError.
Proof.
  intros [Hlen Hrows] Hi Hj Hout. unfold grid_set.
  destruct (decide (i < Z.of_nat R)) as [HiR|HiR].
  - rewrite py_index_in by lia. simpl.
    destruct (lookup_lt_is_Some_2 g (Z.to_nat i)) as [line Hline]; [lia|].
    unfold list_item. rewrite Hline. simpl.
    assert (length line = C) as Hl.
    { rewrite Forall_lookup in Hrows. by eapply Hrows. }
    rewrite py_index_over by lia. done.
  - rewrite py_index_over by lia. done.
Qed.

(** *** The assignments of one cell *)

Lemma fill_cell_footprint g c :
  fill_cell g c = foldR (assign (cell_text c)) g (footprint c).
Proof.
  unfold fill_cell, footprint.
  etrans.
  { exact (foldR_nested
      (fun g (p : Z * Z) =>
         grid_set g (row c - 1 + p.1) (col c - 1 + p.2) (cell_text c))
      g (seqZ 0 (rowspan c)) (seqZ 0 (colspan c))). }
  set (ps := r ← seqZ 0 (rowspan c); k ← seqZ 0 (colspan c); [(r, k)]).
  assert ((r ← seqZ 0 (rowspan c); k ← seqZ 0 (colspan c);
           [(row c - 1 + r, col c - 1 + k)])
          = (fun p : Z * Z => (row c - 1 + p.1, col c - 1 + p.2)) <$> ps) as ->.
  { unfold ps. generalize (seqZ 0 (rowspan c)) as rs.
    generalize (seqZ 0 (colspan c)) as ks. intros ks rs.
    induction rs as [|r rs IH]; [done|].
    change (mbind ?f (r :: rs)) with (f r ++ mbind f rs).
    rewrite fmap_app, IH. f_equal.
    clear. induction ks as [|k ks IH]; [done|].
    change (mbind ?f (k :: ks)) with (f k ++ mbind f ks).
    rewrite fmap_app, IH. done. }
  generalize ps as l. clear. intros l. revert g.
  induction l as [|p l IH]; intros g; [done|].
  rewrite fmap_cons.
  change (foldR ?f g (?x :: ?xs)) with (st' ← f g x; foldR f st' xs).
  unfold assign at 2. simpl.
  destruct (grid_set g _ _ _); simpl; [apply IH|done].
Qed.

Lemma elem_of_footprint c i j : (i, j) ∈ footprint c ↔ covers c i j.
Proof.
  unfold footprint, covers. rewrite list_elem_of_bind. split.
  - intros (r & Hk & Hr). apply list_elem_of_bind in Hk as (k & Hp & Hk).
    apply list_elem_of_ret in Hp. apply elem_of_seqZ in Hr, Hk.
    simplify_eq. lia.
  - intros [Hi Hj]. exists (i - (row c - 1)). split.
    + apply list_elem_of_bind. exists (j - (col c - 1)). split.
      * apply list_elem_of_ret. f_equal; lia.
      * apply elem_of_seqZ. lia.
    + apply elem_of_seqZ. lia.
Qed.

Lemma assign_all_in R C t (ps : list (Z * Z)) g :
  rect R C g →
  Forall (fun p => 0 ≤ p.1 < Z.of_nat R ∧ 0 ≤ p.2 < Z.of_nat C) ps →
  ∃ g', foldR (assign t) g ps = Return g' ∧ rect R C g' ∧
    ∀ i j, cell_at g' i j =
      if decide ((Z.of_nat i, Z.of_nat j) ∈ ps) then Some t else cell_at g i j.
Proof.
  intros Hg Hps. revert g Hg.
  induction Hps as [|[pi pj] ps [Hi Hj] Hps IH]; intros g Hg.
  - exists g. split; [done|]. split; [done|]. intros i j.
    rewrite decide_False; [done|]. apply not_elem_of_nil.
  - destruct (grid_set_in R C g pi pj t Hg Hi Hj) as (g1 & Hset & Hg1 & Hat1).
    destruct (IH g1 Hg1) as (g' & Hfold & Hg' & Hat).
    exists g'. split; [|split; [done|]].
    + rewrite foldR_cons. unfold assign. cbn [fst snd]. by rewrite Hset.
    + intros i j. rewrite Hat, Hat1.
      destruct (decide ((Z.of_nat i, Z.of_nat j) ∈ ps)) as [Hin|Hin].
      * rewrite decide_True; [done|]. by right.
      * destruct (decide (Z.of_nat i = pi ∧ Z.of_nat j = pj)) as [[<- <-]|Hne].
        -- rewrite decide_True; [done|]. by left.
        -- rewrite decide_False; [done|].
           intros [Heq|?]%elem_of_cons; [|done]. simplify_eq. by apply Hne.
Qed.

Lemma assign_some_out R C t (ps : list (Z * Z)) g :
  rect R C g →
  Forall (fun p => 0 ≤ p.1 ∧ 0 ≤ p.2) ps →
  Exists (fun p => ¬ (p.1 < Z.of_nat R ∧ p.2 < Z.of_nat C)) ps →
  foldR (assign t) g ps = Raise IndexError.
Proof.
  intros Hg Hpos Hout. revert g Hg Hpos.
  induction Hout as [[pi pj] ps Hout|[pi pj] ps Hout IH]; intros g Hg Hpos;
    inversion_clear Hpos as [|?? [Hi Hj] Hps]; cbn [fst snd] in *;
    rewrite foldR_cons; unfold assign; cbn [fst snd].
  - by erewrite grid_set_out.
  - destruct (decide (pi < Z.of_nat R ∧ pj < Z.of_nat C)) as [[HiR HjC]|Hbad].
    + destruct (grid_set_in R C g pi pj t Hg) as (g1 & -> & Hg1 & _); [lia..|].
      simpl. by apply IH.
    + by erewrite grid_set_out.
Qed.

(** A cell is inside the box, or one of its footprint positions is not. *)
Lemma inside_or_witness R C c :
  inside R C c ∨ ∃ i j, covers c i j ∧ ¬ (0 ≤ i < R ∧ 0 ≤ j < C).
Proof.
  unfold inside, covers.
  destruct (decide (rowspan c ≤ 0 ∨ colspan c ≤ 0)) as [Hempty|Hspan].
  { left. intros i j. lia. }
  destruct (decide (1 ≤ row c ∧ row c - 1 + rowspan c ≤ R
                    ∧ 1 ≤ col c ∧ col c - 1 + colspan c ≤ C)) as [Hin|Hout].
  { left. intros i j. lia. }
  right.
  destruct (decide (1 ≤ row c ∧ 1 ≤ col c)) as [Hanchor|Hanchor].
  - destruct (decide (row c - 1 + rowspan c ≤ R)).
    + exists (row c - 1), (col c - 1 + colspan c - 1). lia.
    + exists (row c - 1 + rowspan c - 1), (col c - 1). lia.
  - exists (row c - 1), (col c - 1). lia.
Qed.

Lemma fill_cell_inside R C g c :
  rect R C g → inside (Z.of_nat R) (Z.of_nat C) c →
  ∃ g', fill_cell g c = Return g' ∧ rect R C g' ∧
    ∀ i j, cell_at g' i j =
      if decide (covers c (Z.of_nat i) (Z.of_nat j)) then Some (cell_text c)
      else cell_at g i j.
Proof.
  intros Hg Hin. rewrite fill_cell_footprint.
  destruct (assign_all_in R C (cell_text c) (footprint c) g Hg)
    as (g' & Hfold & Hg' & Hat).
  { apply Forall_forall. intros [i j] Hp%elem_of_footprint. by apply Hin. }
  exists g'. split; [done|]. split; [done|]. intros i j. rewrite Hat.
  destruct (decide (covers c (Z.of_nat i) (Z.of_nat j))) as [Hc|Hc].
  - rewrite decide_True; [done|]. by apply elem_of_footprint.
  - rewrite decide_False; [done|]. by rewrite elem_of_footprint.
Qed.

Lemma fill_cell_outside R C g c :
  rect R C g → 1 ≤ row c → 1 ≤ col c →
  ¬ inside (Z.of_nat R) (Z.of_nat C) c →
  fill_cell g c = Raise IndexError.
Proof.
  intros Hg Hrow Hcol Hout. rewrite fill_cell_footprint.
  destruct (inside_or_witness (Z.of_nat R) (Z.of_nat C) c)
    as [?|(i & j & Hc & Hbad)]; [done|].
  apply (assign_some_out R C); [done|..].
  - apply Forall_forall. intros [i' j'] Hp%elem_of_footprint.
    unfold covers in Hp. simpl. lia.
  - apply Exists_exists. exists (i, j). split; [by apply elem_of_footprint|].
    unfold covers in Hc. simpl. lia.
Qed.

(** *** The loop over the cells *)

Lemma last_cover_cons c cells i j :
  last_cover (c :: cells) i j =
    match last_cover cells i j with
    | Some c' => Some c'
    | None => if decide (covers c i j) then Some c else None
    end.
Proof.
  unfold last_cover. rewrite filter_cons.
  destruct (decide (covers c i j)); [|by destruct (last _)].
  by rewrite last_cons.
Qed.

Lemma last_cover_Some cells i j c :
  last_cover cells i j = Some c →
  ∃ before after, cells = before ++ c :: after ∧ covers c i j
    ∧ Forall (fun c' => ¬ covers c' i j) after.
Proof.
  intros Hlast.
  destruct (last_filter_Some _ _ _ Hlast) as (l1 & l2 & -> & Hl2).
  exists l1, l2. split; [done|]. split; [|done].
  apply last_Some_elem_of in Hlast.
  by apply list_elem_of_filter in Hlast as [? _].
Qed.

Lemma last_cover_None cells i j :
  last_cover cells i j = None → Forall (fun c => ¬ covers c i j) cells.
Proof.
  unfold last_cover. intros Hnil%last_None.
  apply Forall_forall. intros c Hc Hcov.
  apply (not_elem_of_nil c). rewrite <- Hnil.
  by apply list_elem_of_filter.
Qed.

Lemma fill_cells_inside R C cells g :
  rect R C g → Forall (inside (Z.of_nat R) (Z.of_nat C)) cells →
  ∃ g', foldR fill_cell g cells = Return g' ∧ rect R C g' ∧
    ∀ i j, cell_at g' i j =
      match last_cover cells (Z.of_nat i) (Z.of_nat j) with
      | Some c => Some (cell_text c)
      | None => cell_at g i j
      end.
Proof.
  intros Hg Hin. revert g Hg.
  induction Hin as [|c cells Hc Hcells IH]; intros g Hg.
  - by exists g.
  - destruct (fill_cell_inside R C g c Hg Hc) as (g1 & Hfill & Hg1 & Hat1).
    destruct (IH g1 Hg1) as (g' & Hfold & Hg' & Hat).
    exists g'. split; [|split; [done|]].
    + by rewrite foldR_cons, Hfill.
    + intros i j. rewrite Hat, Hat1, last_cover_cons.
      by destruct (last_cover cells (Z.of_nat i) (Z.of_nat j)),
           (decide (covers c (Z.of_nat i) (Z.of_nat j))).
Qed.

Lemma fill_cells_outside R C cells g :
  rect R C g →
  Forall (fun c => 1 ≤ row c ∧ 1 ≤ col c) cells →
  Exists (fun c => ¬ inside (Z.of_nat R) (Z.of_nat C) c) cells →
  foldR fill_cell g cells = Raise IndexError.
Proof.
  intros Hg Hanchor Hout. revert g Hg Hanchor.
  induction Hout as [c cells Hout|c cells Hout IH]; intros g Hg Hanchor;
    inversion_clear Hanchor as [|?? [Hrow Hcol] Hcells]; rewrite foldR_cons.
  - by rewrite (fill_cell_outside R C).
  - destruct (inside_or_witness (Z.of_nat R) (Z.of_nat C) c)
      as [Hin|(i & j & Hcov & Hbad)].
    + destruct (fill_cell_inside R C g c Hg Hin) as (g1 & -> & Hg1 & _).
      by apply IH.
    + rewrite (fill_cell_outside R C); [done..|].
      intros Hin. by apply Hbad, Hin.
Qed.

Lemma rect_blank R C : rect R C (replicate R (replicate C EmptyString)).
Proof.
  split; [apply length_replicate|].
  apply Forall_replicate, length_replicate.
Qed.

Lemma cell_at_blank R C i j :
  (i < R)%nat → (j < C)%nat →
  cell_at (replicate R (replicate C EmptyString)) i j = Some EmptyString.
Proof.
  intros Hi Hj. unfold cell_at.
  rewrite lookup_replicate_2 by done. simpl.
  by rewrite lookup_replicate_2.
Qed.

Lemma cell_at_blank_inv R C i j v :
  cell_at (replicate R (replicate C EmptyString)) i j = Some v → v = EmptyString.
Proof.
  unfold cell_at. intros Hat.
  destruct (replicate R (replicate C EmptyString) !! i) as [line|] eqn:Hline;
    simpl in Hat; [|done].
  apply lookup_replicate in Hline as [-> _].
  by apply lookup_replicate in Hat as [-> _].
Qed.

Lemma build_table_unfold cells R C :
  is_max R (row <$> cells) → is_max C (col <$> cells) →
  build_table cells =
    foldR fill_cell
      (replicate (Z.to_nat R) (replicate (Z.to_nat C) EmptyString)) cells.
Proof.
  intros HR HC. unfold build_table.
  by rewrite (py_max_is_max _ _ HR), (py_max_is_max _ _ HC).
Qed.
End GridFacts.

(** C3, for footprints that fit the grid. For a list of cells whose
    maximal anchors are [R] and [C] and whose footprints all lie inside
    [[0,R) x [0,C)], grid
    expansion returns a grid of exactly [R] rows and [C] columns in which
    every position [(i, j)] holds the text of the last cell, in input
    order, whose footprint contains [(i, j)], and the empty string when no
    footprint contains it. *)
Theorem build_table_contents (cells : list cell) (R C : Z) :
  is_max R (row <$> cells) → is_max C (col <$> cells) →
  Forall (inside R C) cells →
  ∃ g, build_table cells = Return g
    ∧ length g = Z.to_nat R
    ∧ Forall (fun line => length line = Z.to_nat C) g
    ∧ ∀ i j : nat, Z.of_nat i < R → Z.of_nat j < C →
        (∃ before c after,
            cells = before ++ c :: after
            ∧ covers c (Z.of_nat i) (Z.of_nat j)
            ∧ Forall (fun c' => ¬ covers c' (Z.of_nat i) (Z.of_nat j)) after
            ∧ cell_at g i j = Some (cell_text c))
        ∨ (Forall (fun c => ¬ covers c (Z.of_nat i) (Z.of_nat j)) cells
            ∧ cell_at g i j = Some EmptyString).
Proof.
  intros HR HC Hin.
  rewrite (build_table_unfold cells R C HR HC).
  destruct (fill_cells_inside (Z.to_nat R) (Z.to_nat C) cells
              (replicate (Z.to_nat R) (replicate (Z.to_nat C) EmptyString)))
    as (g & Hfold & [Hlen Hrows] & Hat).
  { apply rect_blank. }
  { eapply Forall_impl; [exact Hin|]. intros c Hc i j Hcov.
    specialize (Hc i j Hcov). lia. }
  exists g. split; [done|]. split; [done|]. split; [done|].
  intros i j Hi Hj. rewrite Hat.
  destruct (last_cover cells (Z.of_nat i) (Z.of_nat j)) as [c|] eqn:Hlast.
  - left. destruct (last_cover_Some _ _ _ _ Hlast) as (l1 & l2 & ? & ? & ?).
    by exists l1, c, l2.
  - right. split; [by apply last_cover_None|].
    apply cell_at_blank; lia.
Qed.

(** C2, as the code behaves. Grid expansion does not clip. For cells
    anchored at [row >= 1] and [col >= 1] whose maximal anchors are [R]
    and [C]: when
    every footprint lies inside [[0,R) x [0,C)] the expansion returns a
    grid in which a text other than the empty string only stands at a
    footprint position of the cell it belongs to; as soon as one cell has a
    footprint position outside, the expansion raises [IndexError] and
    returns no grid. *)
Theorem build_table_no_clipping (cells : list cell) (R C : Z) :
  is_max R (row <$> cells) → is_max C (col <$> cells) →
  Forall (fun c => 1 ≤ row c ∧ 1 ≤ col c) cells →
  (Forall (inside R C) cells →
     ∃ g, build_table cells = Return g
       ∧ ∀ (i j : nat) v, cell_at g i j = Some v →
           v = EmptyString
           ∨ ∃ c, c ∈ cells ∧ covers c (Z.of_nat i) (Z.of_nat j) ∧ v = cell_text c)
  ∧ (Exists (fun c => ¬ inside R C c) cells →
     build_table cells = Raise IndexError).
Proof.
  intros HR HC Hanchor.
  rewrite (build_table_unfold cells R C HR HC).
  assert (1 ≤ R ∧ 1 ≤ C) as [HR1 HC1].
  { destruct HR as [HRin _], HC as [HCin _].
    apply list_elem_of_fmap in HRin as (c & -> & Hc).
    apply list_elem_of_fmap in HCin as (c' & -> & Hc').
    rewrite Forall_forall in Hanchor.
    destruct (Hanchor c Hc), (Hanchor c' Hc'). lia. }
  assert (∀ c, inside R C c ↔
               inside (Z.of_nat (Z.to_nat R)) (Z.of_nat (Z.to_nat C)) c) as Hnat.
  { intros c. by rewrite !Z2Nat.id by lia. }
  split.
  - intros Hin.
    destruct (fill_cells_inside (Z.to_nat R) (Z.to_nat C) cells
                (replicate (Z.to_nat R) (replicate (Z.to_nat C) EmptyString)))
      as (g & Hfold & _ & Hat).
    { apply rect_blank. }
    { eapply Forall_impl; [exact Hin|]. intros c. apply Hnat. }
    exists g. split; [done|]. intros i j v. rewrite Hat.
    destruct (last_cover cells (Z.of_nat i) (Z.of_nat j)) as [c|] eqn:Hlast.
    + intros [= <-]. right. exists c.
      destruct (last_cover_Some _ _ _ _ Hlast) as (l1 & l2 & -> & Hcov & _).
      split; [|done]. apply elem_of_app. right. by left.
    + intros Hv%cell_at_blank_inv. by left.
  - intros Hout.
    apply (fill_cells_outside (Z.to_nat R) (Z.to_nat C)); [apply rect_blank|done|].
    eapply Exists_impl; [exact Hout|]. intros c Hc Hin. by apply Hc, Hnat.
Qed.

(** C8. Grid expansion of an empty cell sequence fails: the maximum row
    cannot be computed, [max()] raises (Python's [ValueError], the
    empty-table error of the specification), and neither a grid nor a data
    frame is returned. *)
Theorem create_expanded_dataframe_empty :
  build_table [] = Raise ValueError
  ∧ create_expanded_dataframe [] = Raise ValueError.
Proof. split; reflexivity. Qed.

Ltac solve_Forall tac :=
  simpl; repeat (apply Forall_cons_2; [tac|]); apply Forall_nil_2.

Ltac solve_is_max :=
  split; [apply list_elem_of_In; simpl; tauto|solve_Forall lia].

Lemma build_table_contents_witness :
  ∃ g, build_table [Cell 1 1 1 1 "Name"; Cell 1 2 1 1 "Age";
                    Cell 2 1 1 1 "Ann"; Cell 2 2 1 1 "30"] = Return g
    ∧ length g = 2%nat
    ∧ Forall (fun line => length line = 2%nat) g
    ∧ ∀ i j : nat, Z.of_nat i < 2 → Z.of_nat j < 2 →
        (∃ before c after,
            [Cell 1 1 1 1 "Name"; Cell 1 2 1 1 "Age";
             Cell 2 1 1 1 "Ann"; Cell 2 2 1 1 "30"] = before ++ c :: after
            ∧ covers c (Z.of_nat i) (Z.of_nat j)
            ∧ Forall (fun c' => ¬ covers c' (Z.of_nat i) (Z.of_nat j)) after
            ∧ cell_at g i j = Some (cell_text c))
        ∨ (Forall (fun c => ¬ covers c (Z.of_nat i) (Z.of_nat j))
             [Cell 1 1 1 1 "Name"; Cell 1 2 1 1 "Age";
              Cell 2 1 1 1 "Ann"; Cell 2 2 1 1 "30"]
            ∧ cell_at g i j = Some EmptyString).
Proof.
  apply (build_table_contents
           [Cell 1 1 1 1 "Name"; Cell 1 2 1 1 "Age";
            Cell 2 1 1 1 "Ann"; Cell 2 2 1 1 "30"] 2 2).
  - solve_is_max.
  - solve_is_max.
  - solve_Forall ltac:(unfold inside, covers; simpl; intros i j; lia).
Defined.

(** The clipping example of the specification: a cell anchored at the last
    row whose [rowspan] exceeds the remaining rows. *)
Lemma build_table_no_clipping_witness :
  build_table [Cell 1 1 1 1 "H"; Cell 2 1 3 1 "Y"] = Raise IndexError.
Proof.
  apply (build_table_no_clipping [Cell 1 1 1 1 "H"; Cell 2 1 3 1 "Y"] 2 1).
  - solve_is_max.
  - solve_is_max.
  - solve_Forall ltac:(simpl; lia).
  - right. left. intros Hin. destruct (Hin 2 0); [unfold covers; simpl; lia|lia].
Defined.

(** The claimed clipping does not happen: the single cell
    [{row:2, col:1, rowspan:3, colspan:1, text:"Y"}] gives a table with
    [max_row = 2], and the assignment to row index 2 raises. *)
Lemma build_table_clipping_counterexample :
  build_table [Cell 2 1 3 1 "Y"] = Raise IndexError
  ∧ ¬ ∃ g, build_table [Cell 2 1 3 1 "Y"] = Return g.
Proof. split; [reflexivity|]. intros [g Hg]. discriminate Hg. Qed.

(** Later cells overwrite earlier ones. *)
Example build_table_overlap_example :
  build_table [Cell 1 1 1 1 "A"; Cell 1 1 1 1 "B"] = Return [["B"]].
Proof. reflexivity. Qed.

(** A span that stays inside the box of the anchors is filled in full. *)
Example build_table_span_example :
  build_table [Cell 1 1 2 2 "X"; Cell 2 2 1 1 "Z"]
  = Return [["X"; "X"]; ["X"; "Z"]].
Proof. reflexivity. Qed.

(** A non-empty list of cells for which no grid is produced: the single
    cell [{row:1, col:1, rowspan:2, colspan:2, text:"X"}] has
    [max_row = max_col = 1]. *)
Lemma build_table_contents_counterexample :
  ¬ ∃ g, build_table [Cell 1 1 2 2 "X"] = Return g.
Proof. intros [g Hg]. discriminate Hg. Qed.

(** ** The dict [parsed_doc] *)

Section DictFacts.
Implicit Types (d : pydict) (k v s : string).

Lemma dict_get_set_eq k v d : dict_get k (dict_set k v d) = Some v.
Proof.
  induction d as [|[k' v'] d IH]; simpl.
  - by rewrite decide_True.
  - destruct (decide (k' = k)) as [->|Hne]; simpl.
    + by rewrite decide_True.
    + by rewrite decide_False.
Qed.

Lemma dict_get_set_ne k k' v d :
  k ≠ k' → dict_get k' (dict_set k v d) = dict_get k' d.
Proof.
  intros Hne. induction d as [|[k1 v1] d IH]; simpl.
  - by rewrite decide_False.
  - destruct (decide (k1 = k)) as [->|Hne1]; simpl.
    + by rewrite !decide_False.
    + by rewrite IH.
Qed.

Lemma dict_set_set k v1 v2 d : dict_set k v2 (dict_set k v1 d) = dict_set k v2 d.
Proof.
  induction d as [|[k' v'] d IH]; simpl.
  - by rewrite decide_True.
  - destruct (decide (k' = k)) as [->|Hne]; simpl.
    + by rewrite decide_True.
    + by rewrite decide_False, IH.
Qed.

Lemma dict_get_None k d : dict_get k d = None ↔ k ∉ d.*1.
Proof.
  induction d as [|[k' v'] d IH]; simpl.
  - split; [intros _; apply not_elem_of_nil|done].
  - rewrite not_elem_of_cons. destruct (decide (k' = k)) as [->|Hne].
    + split; [done|]. by intros [? _].
    + rewrite IH. split; [by split|by intros [_ ?]].
Qed.

Lemma dict_get_Some_elem k v d : dict_get k d = Some v → (k, v) ∈ d.
Proof.
  induction d as [|[k' v'] d IH]; simpl; [done|].
  destruct (decide (k' = k)) as [->|Hne].
  - intros [= ->]. by left.
  - intros Hget. right. by apply IH.
Qed.

Lemma dict_get_elem k v d : NoDup d.*1 → (k, v) ∈ d → dict_get k d = Some v.
Proof.
  induction d as [|[k' v'] d IH]; simpl.
  - intros _ Hin. by apply elem_of_nil in Hin.
  - intros [Hk' Hd]%NoDup_cons [Heq|Hin]%elem_of_cons.
    + simplify_eq. by rewrite decide_True.
    + rewrite decide_False; [by apply IH|].
      intros ->. apply Hk'. apply list_elem_of_fmap. by exists (k, v).
Qed.

(** A key already present keeps its position. *)
Lemma dict_set_keys_present k v d : k ∈ d.*1 → (dict_set k v d).*1 = d.*1.
Proof.
  induction d as [|[k' v'] d IH]; simpl.
  - intros Hin. by apply elem_of_nil in Hin.
  - destruct (decide (k' = k)) as [->|Hne]; [done|].
    intros [?|Hin]%elem_of_cons; [done|]. csimpl. by rewrite IH.
Qed.

(** A new key goes last. *)
Lemma dict_set_new k v d : k ∉ d.*1 → dict_set k v d = d ++ [(k, v)].
Proof.
  induction d as [|[k' v'] d IH]; simpl; [done|].
  intros [Hne Hin]%not_elem_of_cons.
  rewrite decide_False by done. by rewrite IH.
Qed.

Lemma dict_set_NoDup k v d : NoDup d.*1 → NoDup (dict_set k v d).*1.
Proof.
  intros Hd. destruct (decide (k ∈ d.*1)) as [Hin|Hin].
  - by rewrite dict_set_keys_present.
  - rewrite dict_set_new by done. rewrite fmap_app. simpl.
    apply NoDup_app. split; [done|]. split; [|apply NoDup_singleton].
    intros k' Hk' ->%list_elem_of_singleton. done.
Qed.

Lemma wf_doc_set cur k v d : wf_doc cur d → wf_doc cur (dict_set k v d).
Proof.
  intros [Hnd Hcur]. split; [by apply dict_set_NoDup|].
  destruct (decide (k = cur)) as [->|Hne].
  - by rewrite dict_get_set_eq.
  - by rewrite dict_get_set_ne.
Qed.

Lemma dict_iadd_Some k s v d :
  dict_get k d = Some v → dict_iadd k s d = Return (dict_set k (v +:+ s) d).
Proof. intros Hget. unfold dict_iadd. by rewrite Hget. Qed.

Lemma dict_iadd_wf cur s d :
  wf_doc cur d → ∃ d', dict_iadd cur s d = Return d' ∧ wf_doc cur d'
    ∧ d'.*1 = d.*1.
Proof.
  intros Hwf. destruct Hwf as [Hnd [v Hv]].
  rewrite (dict_iadd_Some _ _ _ _ Hv). eexists. split; [done|].
  split; [by apply wf_doc_set|].
  apply dict_set_keys_present.
  destruct (decide (cur ∈ d.*1)) as [|Hn]; [done|].
  apply dict_get_None in Hn. congruence.
Qed.

(** Two successive [+=] on the same key. *)
Lemma dict_iadd_twice k s1 s2 v d :
  dict_get k d = Some v →
  (d1 ← dict_iadd k s1 d; dict_iadd k s2 d1)
  = Return (dict_set k (v +:+ s1 +:+ s2) d).
Proof.
  intros Hget. rewrite (dict_iadd_Some _ _ _ _ Hget). simpl.
  rewrite (dict_iadd_Some _ _ (v +:+ s1)) by apply dict_get_set_eq.
  by rewrite dict_set_set, app_assoc.
Qed.

Lemma dict_get_prune k v d :
  NoDup d.*1 →
  dict_get k (prune d) = Some v ↔ dict_get k d = Some v ∧ v ≠ EmptyString.
Proof.
  intros Hnd. unfold prune.
  assert (NoDup (filter (fun kv : string * string => kv.2 ≠ EmptyString) d).*1) as Hnd'.
  { eapply sublist_NoDup; [exact Hnd|]. apply fmap_sublist, sublist_filter. }
  split.
  - intros Hin%dict_get_Some_elem. apply list_elem_of_filter in Hin as [Hne Hin].
    split; [by apply dict_get_elem|done].
  - intros [Hin%dict_get_Some_elem Hne]. apply dict_get_elem; [done|].
    by apply list_elem_of_filter.
Qed.
End DictFacts.

(** ** The repetition counter *)

Section CounterFacts.
Implicit Types (m : gmap string nat) (l : list string) (t : string).

Lemma counter_get_foldl l m t :
  counter_get
    (foldl (fun m t => <[t := S (default 0%nat (m !! t))]> m) m l) t
  = (counter_get m t + occurrences t l)%nat.
Proof.
  unfold occurrences. revert m.
  induction l as [|x l IH]; intros m; simpl; [lia|].
  rewrite IH, filter_cons. unfold counter_get at 1.
  destruct (decide (x = t)) as [->|Hne].
  - rewrite lookup_insert_eq. unfold counter_get. simpl. lia.
  - rewrite lookup_insert_ne by done. done.
Qed.

(** [Counter(l)[t]] is the number of occurrences of [t] in [l]. *)
Lemma counter_get_Counter l t : counter_get (Counter l) t = occurrences t l.
Proof. unfold Counter. by rewrite counter_get_foldl. Qed.

Lemma occurrences_app t l1 l2 :
  occurrences t (l1 ++ l2) = (occurrences t l1 + occurrences t l2)%nat.
Proof. unfold occurrences. by rewrite filter_app, length_app. Qed.

Lemma occurrences_0 t l : t ∉ l → occurrences t l = 0%nat.
Proof.
  unfold occurrences. intros Hin.
  induction l as [|x l IH]; [done|].
  apply not_elem_of_cons in Hin as [Hne Hin].
  rewrite filter_cons_False by done. by apply IH.
Qed.

Lemma elem_of_texts_of cat t (elements : list element) :
  t ∈ texts_of cat elements ↔
  ∃ el, el ∈ elements ∧ category el = cat ∧ text el = t.
Proof.
  unfold texts_of. rewrite list_elem_of_fmap. split.
  - intros (el & -> & [Hcat Hin]%list_elem_of_filter). by exists el.
  - intros (el & Hin & Hcat & <-). exists el. split; [done|].
    by apply list_elem_of_filter.
Qed.

(** The count of [t] is the number of [Title], [NarrativeText] and
    [Text] elements whose text is [t]. *)
Lemma counter_get_prepare_counter (elements : list element) t :
  counter_get (prepare_counter elements) t
  = (occurrences t (texts_of "Title" elements)
     + occurrences t (texts_of "NarrativeText" elements)
     + occurrences t (texts_of "Text" elements))%nat.
Proof.
  unfold prepare_counter.
  rewrite counter_get_Counter, !occurrences_app. lia.
Qed.

Lemma keep_text_spec m t :
  keep_text m t = true ↔ (1 ≤ counter_get m t < 10)%nat.
Proof.
  unfold keep_text. rewrite andb_true_iff, negb_true_iff.
  rewrite Nat.ltb_lt, Nat.eqb_neq. lia.
Qed.
End CounterFacts.

(** ** The assembler *)

Section AssemblerFacts.
Variable analyze : string → nat → Z → list (Z * Z) → result (list (list string)).
Variable to_markdown : dataframe → string.
Variable all_counter : gmap string nat.
Variable pdf_path : string.

Local Abbreviation do_step := (step analyze to_markdown all_counter pdf_path).
Local Abbreviation do_run := (run analyze to_markdown all_counter pdf_path).
Local Abbreviation do_table := (process_table analyze to_markdown pdf_path).

Implicit Types (st : state) (el : element) (d : pydict).

Lemma foldR_invariant {S A : Type} (P : S → Prop) (body : S → A → result S)
    (l : list A) (s0 s : S) :
  (∀ s a s', P s → body s a = Return s' → P s') →
  P s0 → foldR body s0 l = Return s → P s.
Proof.
  intros Hbody. revert s0. induction l as [|a l IH]; intros s0 Hs0; simpl.
  - by intros [= <-].
  - destruct (body s0 a) as [s1|e] eqn:Hs1; simpl; [|done].
    apply IH. by eapply Hbody.
Qed.

Lemma wf_init : wf_state init_state.
Proof.
  split; [apply NoDup_singleton|]. by exists EmptyString.
Qed.

Lemma append_text_wf st t sep :
  wf_state st →
  append_text st t sep = Return (with_page_text st (page_text st +:+ t +:+ sep)).
Proof.
  intros [_ [v Hv]]. unfold append_text, page_text, with_page_text.
  rewrite Hv. simpl.
  pose proof (dict_iadd_twice (curr_page st) t sep v (parsed_doc st) Hv) as H.
  simpl in H. destruct (dict_iadd (curr_page st) t (parsed_doc st)); simpl in *.
  - by rewrite H.
  - done.
Qed.

Lemma wf_with_page_text st s : wf_state st → wf_state (with_page_text st s).
Proof. intros Hwf. by apply wf_doc_set. Qed.

Lemma keys_with_page_text st s :
  wf_state st → (parsed_doc (with_page_text st s)).*1 = (parsed_doc st).*1.
Proof.
  intros [_ [v Hv]]. simpl. apply dict_set_keys_present.
  destruct (decide (curr_page st ∈ (parsed_doc st).*1)) as [|Hn]; [done|].
  apply dict_get_None in Hn. congruence.
Qed.

Lemma render_table_wf cur d raw d' :
  wf_doc cur d → render_table to_markdown cur d raw = Return d' →
  wf_doc cur d' ∧ d'.*1 = d.*1.
Proof.
  intros Hwf. unfold render_table.
  destruct (parse_cells raw) as [cells|]; simpl; [|done].
  destruct (create_expanded_dataframe cells) as [df|]; simpl; [|done].
  destruct (dict_iadd_wf cur
    (to_markdown (DataFrame (clean_str <$> columns df)
                            (map clean_str <$> rows df))) d Hwf)
    as (d1 & -> & Hwf1 & Hk1). simpl.
  destruct (dict_iadd_wf cur nl d1 Hwf1) as (d2 & -> & Hwf2 & Hk2).
  intros [= <-]. split; [done|congruence].
Qed.

Lemma process_table_inv st el st' :
  wf_state st → do_table st el = Return st' →
  wf_state st' ∧ curr_page st' = curr_page st
  ∧ st_page_number st' = page_number (metadata el)
  ∧ (parsed_doc st').*1 = (parsed_doc st).*1.
Proof.
  intros Hwf. unfold process_table.
  destruct (dict_iadd_wf (curr_page st) nl (parsed_doc st) Hwf)
    as (d1 & -> & Hwf1 & Hk1). simpl.
  destruct (analyze _ _ _ _) as [tables|]; simpl; [|done].
  destruct (foldR _ d1 tables) as [d2|] eqn:Hfold; simpl; [|done].
  intros [= <-]. simpl.
  assert (wf_doc (curr_page st) d2 ∧ d2.*1 = (parsed_doc st).*1) as [? ?].
  { eapply (foldR_invariant
      (fun d => wf_doc (curr_page st) d ∧ d.*1 = (parsed_doc st).*1));
      [|split; [exact Hwf1|exact Hk1]|exact Hfold].
    intros d raw d' [Hd Hk] Hr.
    destruct (render_table_wf _ _ _ _ Hd Hr). split; [done|congruence]. }
  done.
Qed.

(** The branch of [step] taken for each category. *)
Ltac step_category H :=
  unfold step; rewrite H;
  repeat (rewrite decide_False by done); rewrite decide_True by done.

Lemma step_pagebreak st el :
  category el = "PageBreak" →
  do_step st el = Return
    (State (dict_set (page_key (st_page_number st + 1)) EmptyString (parsed_doc st))
           (page_key (st_page_number st + 1)) (st_page_number st + 1) (calls st)).
Proof. intros Hcat. unfold step. by rewrite decide_True. Qed.

Lemma step_table st el : category el = "Table" → do_step st el = do_table st el.
Proof. intros Hcat. by step_category Hcat. Qed.

Lemma step_wf st el st' : wf_state st → do_step st el = Return st' → wf_state st'.
Proof.
  intros Hwf.
  assert (∀ t sep, append_text st t sep = Return st' → wf_state st') as Happ.
  { intros t sep. rewrite append_text_wf by done.
    intros [= <-]. by apply wf_with_page_text. }
  assert (Return st = Return st' → wf_state st') as Hid by (by intros [= <-]).
  unfold step.
  destruct (decide (category el = "PageBreak")).
  { intros [= <-]. split; simpl; [by apply dict_set_NoDup, Hwf|].
    by rewrite dict_get_set_eq. }
  destruct (decide (category el = "ListItem")).
  { destruct (keep_text _ _); eauto. }
  destruct (decide (category el = "NarrativeText")).
  { destruct (keep_text _ _); eauto. }
  destruct (decide (category el = "Table")).
  { intros Hp. by destruct (process_table_inv _ _ _ Hwf Hp). }
  destruct (decide (category el = "Text")).
  { destruct (keep_text _ _); eauto. }
  destruct (decide (category el = "Title")); [|done].
  destruct (bool_decide _); [|destruct (keep_text _ _)]; eauto.
Qed.

Lemma run_wf elements st : do_run elements = Return st → wf_state st.
Proof.
  apply (foldR_invariant wf_state); [|apply wf_init].
  intros s a s'. apply step_wf.
Qed.

(** Outside the [Table] branch nothing can raise: the current page is a
    key of the dict. *)
Lemma step_no_table st el :
  wf_state st → category el ≠ "Table" → ∃ st', do_step st el = Return st'.
Proof.
  intros Hwf Hcat. unfold step.
  repeat case_decide; try done; repeat case_match;
    rewrite ?(append_text_wf _ _ _ Hwf); eauto.
Qed.

(** A document without tables is always assembled. *)
Lemma run_no_table elements :
  Forall (fun el => category el ≠ "Table") elements →
  ∃ st, do_run elements = Return st.
Proof.
  unfold run. generalize wf_init. generalize init_state as st.
  intros st Hwf Hels. revert st Hwf.
  induction Hels as [|el elements Hcat Hels IH]; intros st Hwf; [by exists st|].
  destruct (step_no_table st el Hwf Hcat) as [st1 Hst1].
  rewrite foldR_cons, Hst1. apply IH. by eapply step_wf.
Qed.
End AssemblerFacts.

Section AssemblerClaims.
Variable analyze : string → nat → Z → list (Z * Z) → result (list (list string)).
Variable to_markdown : dataframe → string.
Variable all_counter : gmap string nat.
Variable pdf_path : string.

Local Abbreviation do_step := (step analyze to_markdown all_counter pdf_path).
Local Abbreviation do_run := (run analyze to_markdown all_counter pdf_path).
Local Abbreviation do_table := (process_table analyze to_markdown pdf_path).
Local Abbreviation assemble :=
  (create_parsed_dictionary analyze to_markdown all_counter pdf_path).

Implicit Types (st : state) (el : element) (d : pydict).

Lemma page_text_get st :
  wf_state st → dict_get (curr_page st) (parsed_doc st) = Some (page_text st).
Proof. intros [_ [v Hv]]. unfold page_text. by rewrite Hv. Qed.

(** C4. In a state reached by the assembler, a [Title] element appends
    its text and a newline to the current page when the page number is 1,
    whatever its count, and otherwise exactly when its count is strictly
    between 0 and 10; in the remaining case the state is left as it is. *)
Theorem title_step (pre : list element) st el :
  do_run pre = Return st → category el = "Title" →
  dict_get (curr_page st) (parsed_doc st) = Some (page_text st)
  ∧ do_step st el = Return
      (if decide (st_page_number st = 1
                  ∨ (0 < counter_get all_counter (text el) < 10)%nat)
       then with_page_text st (page_text st +:+ text el +:+ nl)
       else st).
Proof.
  intros Hwf%run_wf Hcat. split; [by apply page_text_get|].
  unfold step. rewrite Hcat.
  repeat (rewrite decide_False by done). rewrite decide_True by done.
  destruct (decide (st_page_number st = 1)) as [H1|H1].
  - rewrite bool_decide_eq_true_2 by done.
    rewrite decide_True by (by left). by apply append_text_wf.
  - rewrite bool_decide_eq_false_2 by done.
    destruct (keep_text all_counter (text el)) eqn:Hkeep.
    + apply keep_text_spec in Hkeep.
      rewrite decide_True by (right; lia). by apply append_text_wf.
    + rewrite decide_False; [done|].
      intros [?|Hn]; [done|].
      assert (keep_text all_counter (text el) = true) as Hk
        by (apply keep_text_spec; lia).
      congruence.
Qed.

(** C5. In a state reached by the assembler, a [ListItem],
    [NarrativeText] or [Text] element appends its text to the current
    page exactly when its count is at least 1 and below 10, followed by a
    newline for a [ListItem] and by a space for the other two; otherwise
    the state is left as it is. *)
Theorem text_step (pre : list element) st el :
  do_run pre = Return st →
  category el = "ListItem" ∨ category el = "NarrativeText" ∨ category el = "Text" →
  dict_get (curr_page st) (parsed_doc st) = Some (page_text st)
  ∧ do_step st el = Return
      (if decide (1 ≤ counter_get all_counter (text el) < 10)%nat
       then with_page_text st
              (page_text st +:+ text el
               +:+ (if decide (category el = "ListItem") then nl else " "))
       else st).
Proof.
  intros Hwf%run_wf Hcat. split; [by apply page_text_get|].
  assert (do_step st el =
          if keep_text all_counter (text el)
          then append_text st (text el)
                 (if decide (category el = "ListItem") then nl else " ")
          else Return st) as ->.
  { unfold step. destruct Hcat as [Hcat|[Hcat|Hcat]]; rewrite Hcat;
      repeat (rewrite decide_False by done); by rewrite decide_True by done. }
  destruct (decide (1 ≤ counter_get all_counter (text el) < 10)%nat) as [Hc|Hc].
  - apply keep_text_spec in Hc. rewrite Hc. by apply append_text_wf.
  - destruct (keep_text all_counter (text el)) eqn:Hkeep; [|done].
    by apply keep_text_spec in Hkeep.
Qed.

(** C6. A [PageBreak] moves to the key [page_{n+1}] and sets its entry
    to the empty string in every state, so also when the key is already
    in the dict: whatever was accumulated under it is gone, the key keeps
    its position, and the entries of all other keys are unchanged. *)
Theorem pagebreak_reseeds st el :
  category el = "PageBreak" →
  ∃ st', do_step st el = Return st'
    ∧ st_page_number st' = st_page_number st + 1
    ∧ curr_page st' = page_key (st_page_number st + 1)
    ∧ dict_get (curr_page st') (parsed_doc st') = Some EmptyString
    ∧ (is_Some (dict_get (curr_page st') (parsed_doc st)) →
       (parsed_doc st').*1 = (parsed_doc st).*1)
    ∧ ∀ k, k ≠ curr_page st' →
        dict_get k (parsed_doc st') = dict_get k (parsed_doc st).
Proof.
  intros Hcat. rewrite step_pagebreak by done.
  eexists. split; [done|]. simpl. split; [done|]. split; [done|].
  split; [apply dict_get_set_eq|]. split.
  - intros [v Hv]. apply dict_set_keys_present.
    destruct (decide (page_key (st_page_number st + 1) ∈ (parsed_doc st).*1))
      as [|Hn]; [done|].
    apply dict_get_None in Hn. congruence.
  - intros k Hk. by apply dict_get_set_ne.
Qed.

(** A [Table] element that is processed without failure sets the running
    page number to its own [metadata.page_number] and keeps the current
    page key. *)
Lemma table_step_page_number (pre : list element) st el st' :
  do_run pre = Return st → category el = "Table" →
  do_step st el = Return st' →
  st_page_number st' = page_number (metadata el)
  ∧ curr_page st' = curr_page st
  ∧ (parsed_doc st').*1 = (parsed_doc st).*1.
Proof.
  intros Hwf%run_wf Hcat. rewrite step_table by done.
  intros Hp. destruct (process_table_inv _ _ _ _ _ _ Hwf Hp) as (_ & ? & ? & ?).
  done.
Qed.

(** C9. When the loop over the elements ends in state [st], the assembler
    returns a dict whose entries are exactly the entries of
    [parsed_doc st] with a non-empty string, each with the string it had,
    and in the same order. *)
Theorem pruned_pages (elements : list element) st :
  do_run elements = Return st →
  ∃ doc, assemble elements = Return doc
    ∧ (∀ k v, dict_get k doc = Some v ↔
              dict_get k (parsed_doc st) = Some v ∧ v ≠ EmptyString)
    ∧ (∀ k, dict_get k (parsed_doc st) = Some EmptyString → dict_get k doc = None)
    ∧ doc `sublist_of` parsed_doc st.
Proof.
  intros Hrun. pose proof (run_wf _ _ _ _ _ _ Hrun) as [Hnd _].
  exists (prune (parsed_doc st)). unfold create_parsed_dictionary.
  rewrite Hrun. split; [done|]. split; [|split].
  - intros k v. by apply dict_get_prune.
  - intros k Hk. destruct (dict_get k (prune (parsed_doc st))) as [v|] eqn:Hv; [|done].
    apply dict_get_prune in Hv as [Hv Hne]; [|done]. congruence.
  - apply sublist_filter.
Qed.

(** C1, as the code behaves. The assembler has no handler: when the
    processing of one [Table] element raises, whether in the detection service, in
    the parsing of a cell or in the grid expansion, the exception leaves
    [create_parsed_dictionary] and no document is returned, whatever
    precedes or follows the element. *)
Theorem table_failure_propagates (pre post : list element) st el (e : exn) :
  do_run pre = Return st → category el = "Table" →
  do_table st el = Raise e →
  assemble (pre ++ el :: post) = Raise e.
Proof.
  intros Hrun Hcat Hfail. unfold create_parsed_dictionary, run.
  erewrite foldR_raise; [done|exact Hrun|].
  by rewrite step_table.
Qed.

Lemma process_table_service_failure st el e :
  wf_state st →
  analyze pdf_path (calls st) (page_number (metadata el)) (points (metadata el))
    = Raise e →
  do_table st el = Raise e.
Proof.
  intros Hwf Hfail. unfold process_table.
  destruct (dict_iadd_wf (curr_page st) nl (parsed_doc st) Hwf) as (d1 & -> & _).
  simpl. by rewrite Hfail.
Qed.

Lemma process_table_malformed_cell st el raw_cells tables e :
  wf_state st →
  analyze pdf_path (calls st) (page_number (metadata el)) (points (metadata el))
    = Return (raw_cells :: tables) →
  parse_cells raw_cells = Raise e →
  do_table st el = Raise e.
Proof.
  intros Hwf Hret Hfail. unfold process_table.
  destruct (dict_iadd_wf (curr_page st) nl (parsed_doc st) Hwf) as (d1 & -> & _).
  simpl. rewrite Hret. cbn [mbind result_bind].
  rewrite foldR_cons. unfold render_table. by rewrite Hfail.
Qed.
End AssemblerClaims.

(** C10. A [ListItem] whose text is the text of no [Title], [Text] or
    [NarrativeText] element of the document has count 0 in the counter
    built by [prepare_counter], and the assembler skips it: the step leaves
    every page as it was. *)
Theorem listitem_uncounted analyze to_markdown pdf_path
    (elements : list element) (st : state) (el : element) :
  category el = "ListItem" →
  (∀ el', el' ∈ elements →
     category el' = "Title" ∨ category el' = "Text" ∨ category el' = "NarrativeText" →
     text el' ≠ text el) →
  counter_get (prepare_counter elements) (text el) = 0%nat
  ∧ step analyze to_markdown (prepare_counter elements) pdf_path st el = Return st.
Proof.
  intros Hcat Hfresh.
  assert (counter_get (prepare_counter elements) (text el) = 0%nat) as H0.
  { rewrite counter_get_prepare_counter.
    rewrite !occurrences_0; [done|..];
      intros (el' & Hin & Hc & Ht)%elem_of_texts_of;
      apply (Hfresh el' Hin); auto. }
  split; [done|]. unfold step. rewrite Hcat.
  rewrite decide_False by done. rewrite decide_True by done.
  unfold keep_text. by rewrite H0.
Qed.

(** ** Instances on concrete documents *)

Lemma title_step_witness :
  let doc := [Title "Report"; PageBreak; Title "Report"] in
  let st := State [("page_1", "Report" +:+ nl); ("page_2", EmptyString)] "page_2" 2 0 in
  dict_get (curr_page st) (parsed_doc st) = Some (page_text st)
  ∧ step analyze_none render_rows (prepare_counter doc) "doc.pdf" st (Title "Report")
    = Return (State [("page_1", "Report" +:+ nl); ("page_2", "Report" +:+ nl)]
                    "page_2" 2 0).
Proof.
  exact (title_step analyze_none render_rows
           (prepare_counter [Title "Report"; PageBreak; Title "Report"]) "doc.pdf"
           [Title "Report"; PageBreak]
           (State [("page_1", "Report" +:+ nl); ("page_2", EmptyString)] "page_2" 2 0)
           (Title "Report") eq_refl eq_refl).
Defined.

(** A title counted twelve times is kept on page 1 and dropped on page 2. *)
Example title_first_page_example :
  let doc := replicate 11 (Title "Hdr") ++ [PageBreak; Title "Hdr"; Text "body"] in
  counter_get (prepare_counter doc) "Hdr" = 12%nat
  ∧ create_parsed_dictionary analyze_none render_rows (prepare_counter doc) "doc.pdf" doc
    = Return [("page_1", str_join EmptyString (replicate 11 ("Hdr" +:+ nl)));
              ("page_2", "body ")].
Proof. split; vm_compute; reflexivity. Qed.

Lemma text_step_witness :
  let doc := [ListItem "one"; Text "one"] in
  dict_get (curr_page init_state) (parsed_doc init_state) = Some (page_text init_state)
  ∧ step analyze_none render_rows (prepare_counter doc) "doc.pdf" init_state
         (ListItem "one")
    = Return (State [("page_1", "one" +:+ nl)] "page_1" 1 0).
Proof.
  exact (text_step analyze_none render_rows
           (prepare_counter [ListItem "one"; Text "one"]) "doc.pdf"
           [] init_state (ListItem "one") eq_refl (or_introl eq_refl)).
Defined.

(** A narrative text occurring ten times is dropped everywhere, one
    occurring nine times is kept everywhere. *)
Example repetition_filter_example :
  create_parsed_dictionary analyze_none render_rows
    (prepare_counter (replicate 10 (NarrativeText "x"))) "doc.pdf"
    (replicate 10 (NarrativeText "x")) = Return []
  ∧ create_parsed_dictionary analyze_none render_rows
      (prepare_counter (replicate 9 (NarrativeText "x"))) "doc.pdf"
      (replicate 9 (NarrativeText "x"))
    = Return [("page_1", str_join EmptyString (replicate 9 "x "))].
Proof. split; vm_compute; reflexivity. Qed.

(** The page number is brought back to 1 by a table found on page 1 while
    three pages exist; the next [PageBreak] empties [page_2]. *)
Lemma pagebreak_reseeds_witness :
  let doc := [PageBreak; Text "a"; PageBreak; Table 1] in
  let st := State [("page_1", EmptyString); ("page_2", "a "); ("page_3", nl)]
                  "page_3" 1 1 in
  run analyze_none render_rows (prepare_counter doc) "doc.pdf" doc = Return st
  ∧ dict_get (page_key (st_page_number st + 1)) (parsed_doc st) = Some "a "
  ∧ ∃ st', step analyze_none render_rows (prepare_counter doc) "doc.pdf" st PageBreak
           = Return st'
      ∧ st_page_number st' = st_page_number st + 1
      ∧ curr_page st' = page_key (st_page_number st + 1)
      ∧ dict_get (curr_page st') (parsed_doc st') = Some EmptyString
      ∧ (is_Some (dict_get (curr_page st') (parsed_doc st)) →
         (parsed_doc st').*1 = (parsed_doc st).*1)
      ∧ ∀ k, k ≠ curr_page st' →
          dict_get k (parsed_doc st') = dict_get k (parsed_doc st).
Proof.
  split; [reflexivity|]. split; [reflexivity|].
  exact (pagebreak_reseeds analyze_none render_rows
           (prepare_counter [PageBreak; Text "a"; PageBreak; Table 1]) "doc.pdf"
           (State [("page_1", EmptyString); ("page_2", "a "); ("page_3", nl)]
                  "page_3" 1 1)
           PageBreak eq_refl).
Defined.

(** The same document with and without the table: with it, the text of
    page 2 is lost. *)
Example pagebreak_erases_example :
  let with_table := [PageBreak; Text "a"; PageBreak; Table 1; PageBreak; Text "b"] in
  let without := [PageBreak; Text "a"; PageBreak; PageBreak; Text "b"] in
  create_parsed_dictionary analyze_none render_rows (prepare_counter with_table)
    "doc.pdf" with_table = Return [("page_2", "b "); ("page_3", nl)]
  ∧ create_parsed_dictionary analyze_none render_rows (prepare_counter without)
      "doc.pdf" without = Return [("page_2", "a "); ("page_4", "b ")].
Proof. split; vm_compute; reflexivity. Qed.

Lemma pruned_pages_witness :
  let doc := [Text "a"; PageBreak; PageBreak; Text "b"] in
  let st := State [("page_1", "a "); ("page_2", EmptyString); ("page_3", "b ")]
                  "page_3" 3 0 in
  ∃ out, create_parsed_dictionary analyze_none render_rows (prepare_counter doc)
           "doc.pdf" doc = Return out
    ∧ (∀ k v, dict_get k out = Some v ↔
              dict_get k (parsed_doc st) = Some v ∧ v ≠ EmptyString)
    ∧ (∀ k, dict_get k (parsed_doc st) = Some EmptyString → dict_get k out = None)
    ∧ out `sublist_of` parsed_doc st.
Proof.
  exact (pruned_pages analyze_none render_rows
           (prepare_counter [Text "a"; PageBreak; PageBreak; Text "b"]) "doc.pdf"
           [Text "a"; PageBreak; PageBreak; Text "b"]
           (State [("page_1", "a "); ("page_2", EmptyString); ("page_3", "b ")]
                  "page_3" 3 0)
           eq_refl).
Defined.

(** A document whose only element is a [PageBreak] has no page left. *)
Example page_pruning_example :
  create_parsed_dictionary analyze_none render_rows (prepare_counter [PageBreak])
    "doc.pdf" [PageBreak] = Return [].
Proof. reflexivity. Qed.

Lemma listitem_uncounted_witness :
  let doc := [Title "Shopping"; ListItem "milk"; ListItem "eggs"] in
  counter_get (prepare_counter doc) "milk" = 0%nat
  ∧ step analyze_none render_rows (prepare_counter doc) "doc.pdf"
         (State [("page_1", "Shopping" +:+ nl)] "page_1" 1 0) (ListItem "milk")
    = Return (State [("page_1", "Shopping" +:+ nl)] "page_1" 1 0).
Proof.
  apply (listitem_uncounted analyze_none render_rows "doc.pdf"
           [Title "Shopping"; ListItem "milk"; ListItem "eggs"]
           (State [("page_1", "Shopping" +:+ nl)] "page_1" 1 0) (ListItem "milk")).
  - reflexivity.
  - intros el' Hin Hcat.
    repeat (apply elem_of_cons in Hin as [->|Hin]); simpl in *;
      [discriminate|destruct Hcat as [?|[?|?]]; discriminate..|].
    by apply elem_of_nil in Hin.
Defined.

(** A list of items only: every item is dropped and no page is left. *)
Example listitems_only_example :
  create_parsed_dictionary analyze_none render_rows
    (prepare_counter [ListItem "milk"; ListItem "eggs"]) "doc.pdf"
    [ListItem "milk"; ListItem "eggs"] = Return [].
Proof. reflexivity. Qed.

Lemma table_failure_propagates_witness :
  let doc := [Text "a"; PageBreak; Table 2; PageBreak; Text "b"] in
  create_parsed_dictionary (analyze_cells ["<Cell: (1,1)> x"]) render_rows
    (prepare_counter doc) "doc.pdf" ([Text "a"; PageBreak] ++ Table 2 :: [PageBreak; Text "b"])
  = Raise AttributeError.
Proof.
  exact (table_failure_propagates (analyze_cells ["<Cell: (1,1)> x"]) render_rows
           (prepare_counter [Text "a"; PageBreak; Table 2; PageBreak; Text "b"])
           "doc.pdf" [Text "a"; PageBreak] [PageBreak; Text "b"]
           (State [("page_1", "a "); ("page_2", EmptyString)] "page_2" 2 0)
           (Table 2) AttributeError eq_refl eq_refl eq_refl).
Defined.

(** One document, three behaviours of the detection service for its single
    table. When the service finds nothing the three pages are returned;
    when the service fails, or returns a cell that does not have the
    expected form, the assembler raises and returns nothing, so the texts
    of pages 1 and 3 are not delivered. *)
Lemma table_failure_counterexample :
  let doc := [Text "a"; PageBreak; Table 2; PageBreak; Text "b"] in
  create_parsed_dictionary analyze_none render_rows (prepare_counter doc) "doc.pdf" doc
    = Return [("page_1", "a "); ("page_2", nl); ("page_3", "b ")]
  ∧ create_parsed_dictionary analyze_down render_rows (prepare_counter doc) "doc.pdf" doc
    = Raise (ExternalError "timeout")
  ∧ create_parsed_dictionary (analyze_cells ["<Cell: (1,1)> x"]) render_rows
      (prepare_counter doc) "doc.pdf" doc
    = Raise AttributeError.
Proof. repeat split; vm_compute; reflexivity. Qed.

(** A table that is detected and rendered: the end-to-end example of the
    specification. *)
Example table_render_example :
  let raw :=
    ["<Cell: (1,1), Span: (1, 1), Column Header: True, MergedCell: False>  Name";
     "<Cell: (1,2), Span: (1, 1), Column Header: True, MergedCell: False>  Age";
     "<Cell: (2,1), Span: (1, 1), Column Header: False, MergedCell: False>  Ann";
     "<Cell: (2,2), Span: (1, 1), Column Header: False, MergedCell: False>  30"] in
  (cells ← parse_cells raw; create_expanded_dataframe cells)
    = Return (DataFrame ["Name"; "Age"] [["Ann"; "30"]])
  ∧ create_parsed_dictionary (analyze_cells raw) render_rows ∅ "doc.pdf" [Table 1]
    = Return [("page_1", nl +:+ "Name|Age" +:+ nl +:+ "Ann|30" +:+ nl)].
Proof. split; vm_compute; reflexivity. Qed.

(** * Further properties *)

(** ** [clean_text] *)

Lemma str_split_go_replace cur s :
  str_split_go cur (str_replace newline space s) = str_split_go cur s.
Proof.
  revert cur. induction s as [|c s IH]; intros cur; [done|]. simpl.
  destruct (Ascii.eqb_spec c newline) as [->|Hc].
  - rewrite isspace_newline.
    change (isspace space) with true. cbn iota. by rewrite IH.
  - by rewrite !IH.
Qed.

Lemma clean_str_split_join (s : string) :
  clean_str s = str_join " " (str_split s).
Proof. rewrite clean_str_join. unfold str_split. by rewrite str_split_go_replace. Qed.

(** The [replace] and [strip] steps of [clean_text] change nothing:
    on a string it returns [' '.join(text.split())], and the words of the
    result are the words of the argument. *)
Theorem clean_str_words (s : string) :
  clean_str s = str_join " " (str_split s)
  ∧ str_split (clean_str s) = str_split s.
Proof.
  split; [apply clean_str_split_join|].
  rewrite clean_str_split_join. apply str_split_join, str_split_words.
Qed.

Lemma str_length_app s t :
  String.length (s +:+ t) = (String.length s + String.length t)%nat.
Proof. induction s as [|c s IH]; [done|]. rewrite app_cons. simpl. by rewrite IH. Qed.

Lemma str_join_cons_length w ws :
  (String.length (str_join " " (w :: ws))
   ≤ String.length w + 1 + String.length (str_join " " ws))%nat.
Proof.
  destruct ws as [|w' ws]; [simpl; lia|].
  change (str_join " " (w :: w' :: ws))
    with (w +:+ " " +:+ str_join " " (w' :: ws)).
  rewrite !str_length_app. simpl. lia.
Qed.

Lemma str_split_go_length cur s :
  (String.length (str_join " " (str_split_go cur s))
   ≤ String.length cur + String.length s)%nat.
Proof.
  revert cur. induction s as [|c s IH]; intros cur; simpl.
  - destruct cur; simpl; lia.
  - destruct (isspace c).
    + destruct cur as [|a cur].
      * specialize (IH EmptyString). simpl in IH. lia.
      * pose proof (str_join_cons_length (String a cur)
                      (str_split_go EmptyString s)) as Hj.
        specialize (IH EmptyString). simpl in *. lia.
    + specialize (IH (cur +:+ String c EmptyString)).
      rewrite str_length_app in IH. simpl in IH. lia.
Qed.

(** Normalisation never makes a text longer. *)
Theorem clean_str_length (s : string) :
  (String.length (clean_str s) ≤ String.length s)%nat.
Proof.
  rewrite clean_str_split_join.
  apply (str_split_go_length EmptyString s).
Qed.

Lemma str_split_go_nil cur s :
  str_split_go cur s = [] ↔ cur = EmptyString ∧ is_blank s = true.
Proof.
  revert cur. induction s as [|c s IH]; intros cur; simpl.
  - destruct cur; split; try done. by intros [? _].
  - destruct (isspace c); simpl.
    + destruct cur as [|a cur]; [apply IH|].
      split; [done|]. by intros [? _].
    + rewrite IH. split; [|by intros [_ ?]].
      intros [Hc _]. by destruct cur.
Qed.

Lemma str_join_nil ws :
  Forall is_word ws → str_join " " ws = EmptyString → ws = [].
Proof.
  destruct 1 as [|w ws Hw Hws]; [done|].
  intros Hj. by apply str_join_words_ne in Hj.
Qed.

(** A text is normalised to the empty string exactly when it consists of
    whitespace only. *)
Theorem clean_str_empty_iff (s : string) :
  clean_str s = EmptyString ↔ is_blank s = true.
Proof.
  rewrite clean_str_split_join. split.
  - intros Hj%str_join_nil; [|apply str_split_words].
    by apply str_split_go_nil in Hj as [_ ?].
  - intros Hb. unfold str_split.
    by rewrite (proj2 (str_split_go_nil EmptyString s)).
Qed.

Lemma isspace_space : isspace space = true.
Proof. reflexivity. Qed.

Lemma no_space_char_in w : no_space w = true → char_in space w = false.
Proof.
  induction w as [|c w IH]; [done|]. simpl.
  intros [Hc Hw]%andb_true_iff. rewrite IH by done.
  destruct (Ascii.eqb_spec c space) as [->|]; [|done].
  by rewrite isspace_space in Hc.
Qed.

Lemma str_split_on_absent sep w :
  char_in sep w = false → str_split_on sep w = [w].
Proof.
  induction w as [|c w IH]; [done|]. simpl.
  intros [Hc Hw]%orb_false_iff. rewrite Hc, IH by done. done.
Qed.

Lemma str_split_on_app sep w s :
  char_in sep w = false →
  str_split_on sep (w +:+ String sep s) = w :: str_split_on sep s.
Proof.
  induction w as [|c w IH].
  - intros _. rewrite app_nil_l. simpl. by rewrite Ascii.eqb_refl.
  - simpl. intros [Hc Hw]%orb_false_iff. rewrite ?app_cons. simpl.
    rewrite Hc, IH by done. done.
Qed.

Lemma str_split_on_join ws :
  Forall is_word ws → ws ≠ [] → str_split_on space (str_join " " ws) = ws.
Proof.
  induction 1 as [|w ws [Hne Hw] Hws IH]; [done|]. intros _.
  destruct ws as [|w' ws].
  - simpl. by apply str_split_on_absent, no_space_char_in.
  - change (str_join " " (w :: w' :: ws))
      with (w +:+ String space (str_join " " (w' :: ws))).
    rewrite str_split_on_app by by apply no_space_char_in.
    by rewrite IH.
Qed.

(** The shape of a normalised text: unless it is empty, cutting it at
    every space leaves only non-empty pieces free of whitespace. So it has
    no leading, trailing or doubled space and no other whitespace
    character. *)
Theorem clean_str_single_spaced (s : string) :
  clean_str s = EmptyString
  ∨ Forall is_word (str_split_on space (clean_str s)).
Proof.
  rewrite clean_str_split_join.
  destruct (str_split s) as [|w ws] eqn:Hsplit; [by left|]. right.
  pose proof (str_split_words s) as Hws. rewrite Hsplit in Hws.
  by rewrite str_split_on_join.
Qed.

(** Cleaning a frame keeps its shape, and cleaning it twice is cleaning
    it once. *)
Theorem clean_frame_idempotent (df : dataframe) :
  clean_frame (clean_frame df) = clean_frame df
  ∧ length (columns (clean_frame df)) = length (columns df)
  ∧ length <$> rows (clean_frame df) = length <$> rows df.
Proof.
  unfold clean_frame. simpl. split; [|split].
  - f_equal.
    + rewrite <- list_fmap_compose. apply list_fmap_ext.
      intros i s _. apply clean_str_idempotent.
    + rewrite <- list_fmap_compose. apply list_fmap_ext.
      intros i line _. simpl. rewrite map_map. apply map_ext.
      intros s. apply clean_str_idempotent.
  - by rewrite length_fmap.
  - rewrite <- list_fmap_compose. apply list_fmap_ext.
    intros i line _. simpl. by rewrite length_map.
Qed.

(** ** [parse_cells] *)

Section DigitFacts.
Implicit Types (d : Decimal.uint) (s rest : string).

Lemma eat_digits_go_acc d (acc : positive) rest :
  no_digit_ahead rest →
  eat_digits_go (Z.pos acc) (NilEmpty.string_of_uint d +:+ rest)
  = (Z.pos (Pos.of_uint_acc d acc), rest).
Proof.
  intros Hrest. revert acc.
  induction d as [|d IH|d IH|d IH|d IH|d IH|d IH|d IH|d IH|d IH|d IH];
    intros acc; simpl NilEmpty.string_of_uint; rewrite ?app_cons, ?app_nil_l.
  { destruct rest as [|c rest]; [done|]. simpl in *. by rewrite Hrest. }
  all: simpl eat_digits_go; cbn [digit_val N_of_ascii]; simpl; rewrite <- IH;
    f_equal; lia.
Qed.

Lemma eat_digits_go_zero d rest :
  no_digit_ahead rest →
  eat_digits_go 0 (NilEmpty.string_of_uint d +:+ rest)
  = (Z.of_N (Pos.of_uint d), rest).
Proof.
  intros Hrest.
  induction d as [|d IH|d IH|d IH|d IH|d IH|d IH|d IH|d IH|d IH|d IH];
    simpl NilEmpty.string_of_uint; rewrite ?app_cons, ?app_nil_l.
  { destruct rest as [|c rest]; [done|]. simpl in *. by rewrite Hrest. }
  { exact IH. }
  all: simpl eat_digits_go; cbn [digit_val N_of_ascii];
    match goal with
    | |- eat_digits_go ?a _ = _ =>
        let v := eval vm_compute in a in change a with v
    end;
    by rewrite eat_digits_go_acc.
Qed.

Lemma eat_digits_zero_start s :
  match s with
  | String c _ => is_Some (digit_val c)
  | EmptyString => False
  end →
  eat_digits s = Some (eat_digits_go 0 s).
Proof.
  destruct s as [|c s]; [done|]. intros [v Hv]. simpl. rewrite Hv.
  by destruct v.
Qed.

(** [int] reads back what [str] prints, for a number that is not
    negative and is followed by something that is not a digit. *)
Lemma eat_digits_str_of_int (n : Z) rest :
  0 ≤ n → no_digit_ahead rest →
  eat_digits (str_of_int n +:+ rest) = Some (n, rest).
Proof.
  intros Hn Hrest. unfold str_of_int.
  destruct n as [|p|p]; [| |lia].
  - change (eat_digits (String "0" rest) = Some (0, rest)). simpl.
    destruct rest as [|c rest]; [done|]. simpl in *. by rewrite Hrest.
  - simpl Z.to_int. unfold NilZero.string_of_int, NilZero.string_of_uint.
    pose proof (DecimalPos.Unsigned.to_uint_nonnil p) as Hnil.
    pose proof (DecimalPos.Unsigned.of_to p) as Hof.
    destruct (Pos.to_uint p) as [|d|d|d|d|d|d|d|d|d|d] eqn:Hd; [done|..];
      rewrite eat_digits_zero_start by (by eexists);
      rewrite eat_digits_go_zero by done; by rewrite Hof.
Qed.
End DigitFacts.

Section ParseFacts.
Implicit Types (s rest lit raw : string) (raws : list string).

Lemma eat_app lit s : eat lit (lit +:+ s) = Some s.
Proof.
  induction lit as [|a lit IH]; [by destruct s|].
  rewrite app_cons. simpl. by rewrite Ascii.eqb_refl.
Qed.

Lemma eat_bool_app (b : bool) s : eat_bool (str_of_bool b +:+ s) = Some (b, s).
Proof.
  unfold eat_bool. destruct b; simpl str_of_bool.
  - by rewrite eat_app.
  - change (eat "True" ("False" +:+ s)) with (@None string).
    by rewrite eat_app.
Qed.

Lemma char_in_app c s t : char_in c (s +:+ t) = char_in c s || char_in c t.
Proof.
  induction s as [|a s IH]; [done|].
  rewrite app_cons. simpl. by rewrite IH, orb_assoc.
Qed.

Lemma char_in_uint c (d : Decimal.uint) :
  digit_val c = None → char_in c (NilEmpty.string_of_uint d) = false.
Proof.
  intros Hc. induction d; cbn [NilEmpty.string_of_uint char_in]; [done|..];
    rewrite IHd, orb_false_r;
    match goal with
    | |- Ascii.eqb ?a c = false =>
        destruct (Ascii.eqb_spec a c) as [<-|]; [discriminate Hc|done]
    end.
Qed.

Lemma char_in_str_of_int c (n : Z) :
  0 ≤ n → digit_val c = None → char_in c (str_of_int n) = false.
Proof.
  intros Hn Hc. unfold str_of_int. destruct n as [|p|p]; [| |lia].
  - change (Ascii.eqb "0" c || false = false). rewrite orb_false_r.
    destruct (Ascii.eqb_spec "0"%char c) as [<-|]; [discriminate Hc|done].
  - simpl Z.to_int. unfold NilZero.string_of_int, NilZero.string_of_uint.
    pose proof (DecimalPos.Unsigned.to_uint_nonnil p) as Hnil.
    destruct (Pos.to_uint p) eqn:Hd; [done|..]; rewrite <- Hd;
      by apply char_in_uint.
Qed.

Lemma str_split_on_head sep s :
  str_split_on sep s !! 0%nat = Some (str_before sep s).
Proof.
  induction s as [|c s IH]; [done|]. simpl.
  destruct (Ascii.eqb c sep); [done|].
  destruct (str_split_on sep s) as [|w ws]; [done|].
  simpl in *. congruence.
Qed.

Lemma match_cell_repr (r c rs cs : Z) (h m : bool) rest :
  0 ≤ r → 0 ≤ c → 0 ≤ rs → 0 ≤ cs →
  match_cell (cell_repr r c rs cs h m +:+ rest) = Some (r, c, rs, cs, h, m).
Proof.
  intros Hr Hc Hrs Hcs. unfold match_cell, cell_repr. rewrite !app_assoc.
  rewrite eat_app. cbn [mbind option_bind].
  rewrite eat_digits_str_of_int by (done || exact eq_refl). cbn [mbind option_bind].
  rewrite eat_app. cbn [mbind option_bind].
  rewrite eat_digits_str_of_int by (done || exact eq_refl). cbn [mbind option_bind].
  rewrite eat_app. cbn [mbind option_bind].
  rewrite eat_digits_str_of_int by (done || exact eq_refl). cbn [mbind option_bind].
  rewrite eat_app. cbn [mbind option_bind].
  rewrite eat_digits_str_of_int by (done || exact eq_refl). cbn [mbind option_bind].
  rewrite eat_app. cbn [mbind option_bind].
  rewrite eat_bool_app. cbn [mbind option_bind].
  rewrite eat_app. cbn [mbind option_bind].
  rewrite eat_bool_app. cbn [mbind option_bind].
  rewrite eat_app. done.
Qed.
End ParseFacts.

(** Completeness of the cell parser. A string made of the pattern with
    non-negative numbers in its groups, followed by any [rest], is parsed
    to these numbers; the text of the cell is [rest] cut at its first [>]
    and stripped, so whatever follows a [>] in the cell text is lost. *)
Theorem parse_cell_repr (r c rs cs : Z) (h m : bool) (rest : string) :
  0 ≤ r → 0 ≤ c → 0 ≤ rs → 0 ≤ cs →
  parse_cell (cell_repr r c rs cs h m +:+ rest)
  = Return (Cell r c rs cs (str_strip (str_before ">" rest))).
Proof.
  intros Hr Hc Hrs Hcs. unfold parse_cell.
  rewrite match_cell_repr by done.
  assert (str_split_on ">" (cell_repr r c rs cs h m +:+ rest) !! 1%nat
          = Some (str_before ">" rest)) as Hpiece.
  { unfold cell_repr. rewrite !app_assoc.
    rewrite <- !(app_assoc _ _ (">" +:+ rest)).
    change (">" +:+ rest) with (String ">" rest).
    rewrite str_split_on_app; [apply str_split_on_head|].
    rewrite !char_in_app, !char_in_str_of_int by done.
    by destruct h, m. }
  unfold list_item. by rewrite Hpiece.
Qed.

Lemma parse_cell_repr_witness :
  parse_cell (cell_repr 2 1 1 3 true false +:+ "  x > y ")
  = Return (Cell 2 1 1 3 "x").
Proof. apply (parse_cell_repr 2 1 1 3 true false "  x > y "); lia. Defined.

Section ParseSoundness.
Implicit Types (s t rest lit raw w : string) (raws : list string).

Lemma eat_Some lit s (s' : string) : eat lit s = Some s' → s = lit +:+ s'.
Proof.
  revert s. induction lit as [|a lit IH]; intros s; simpl.
  - by intros [= ->].
  - destruct s as [|b s]; [done|].
    destruct (Ascii.eqb_spec a b) as [->|]; [|done].
    intros ->%IH. by rewrite app_cons.
Qed.

Lemma digit_val_nonneg c (v : Z) : digit_val c = Some v → 0 ≤ v.
Proof.
  unfold digit_val. case_match eqn:Hrange; [|done]. intros [= <-].
  apply andb_true_iff in Hrange as [H48%N.leb_le _]. lia.
Qed.

Lemma eat_digits_go_spec (acc n : Z) s (s' : string) :
  eat_digits_go acc s = (n, s') → 0 ≤ acc →
  0 ≤ n ∧ ∃ p, s = p +:+ s'.
Proof.
  revert acc. induction s as [|c s IH]; intros acc; simpl.
  - intros [= <- <-] Hacc. split; [done|]. by exists EmptyString.
  - destruct (digit_val c) as [v|] eqn:Hv.
    + intros Hgo Hacc. apply digit_val_nonneg in Hv.
      destruct (IH _ Hgo) as (Hn & p & ->); [lia|].
      split; [done|]. by exists (String c p).
    + intros [= <- <-] Hacc. split; [done|]. by exists EmptyString.
Qed.

Lemma eat_digits_spec (n : Z) s (s' : string) :
  eat_digits s = Some (n, s') → 0 ≤ n ∧ ∃ p, s = p +:+ s'.
Proof.
  destruct s as [|c s]; simpl; [done|].
  destruct (digit_val c) as [v|] eqn:Hv; [|done]. intros [= Hgo].
  apply digit_val_nonneg in Hv.
  destruct (eat_digits_go_spec _ _ _ _ Hgo Hv) as (Hn & p & ->).
  split; [done|]. by exists (String c p).
Qed.

Lemma eat_bool_spec (b : bool) s (s' : string) :
  eat_bool s = Some (b, s') → ∃ p, s = p +:+ s'.
Proof.
  unfold eat_bool.
  destruct (eat "True" s) as [t|] eqn:Ht.
  - intros [= <- <-]. apply eat_Some in Ht. by eexists.
  - destruct (eat "False" s) as [t|] eqn:Hf; [|done].
    intros [= <- <-]. apply eat_Some in Hf. by eexists.
Qed.

Lemma char_in_suffix c p s : char_in c s = true → char_in c (p +:+ s) = true.
Proof. intros Hs. by rewrite char_in_app, Hs, orb_true_r. Qed.

(** A raw cell that matches has non-negative numbers in its groups and
    contains a [>]. *)
Lemma match_cell_Some raw (r c rs cs : Z) (h m : bool) :
  match_cell raw = Some (r, c, rs, cs, h, m) →
  (0 ≤ r ∧ 0 ≤ c ∧ 0 ≤ rs ∧ 0 ≤ cs) ∧ char_in ">" raw = true.
Proof.
  unfold match_cell. intros Hm.
  destruct (eat "<Cell: (" raw) as [s1|] eqn:H1; cbn [mbind option_bind] in Hm; [|done].
  destruct (eat_digits s1) as [[r' s2]|] eqn:H2; cbn [mbind option_bind] in Hm; [|done].
  destruct (eat "," s2) as [s3|] eqn:H3; cbn [mbind option_bind] in Hm; [|done].
  destruct (eat_digits s3) as [[c' s4]|] eqn:H4; cbn [mbind option_bind] in Hm; [|done].
  destruct (eat "), Span: (" s4) as [s5|] eqn:H5; cbn [mbind option_bind] in Hm; [|done].
  destruct (eat_digits s5) as [[rs' s6]|] eqn:H6; cbn [mbind option_bind] in Hm; [|done].
  destruct (eat ", " s6) as [s7|] eqn:H7; cbn [mbind option_bind] in Hm; [|done].
  destruct (eat_digits s7) as [[cs' s8]|] eqn:H8; cbn [mbind option_bind] in Hm; [|done].
  destruct (eat "), Column Header: " s8) as [s9|] eqn:H9; cbn [mbind option_bind] in Hm; [|done].
  destruct (eat_bool s9) as [[h' s10]|] eqn:H10; cbn [mbind option_bind] in Hm; [|done].
  destruct (eat ", MergedCell: " s10) as [s11|] eqn:H11; cbn [mbind option_bind] in Hm; [|done].
  destruct (eat_bool s11) as [[m' s12]|] eqn:H12; cbn [mbind option_bind] in Hm; [|done].
  destruct (eat ">" s12) as [s13|] eqn:H13; cbn [mbind option_bind] in Hm; [|done].
  injection Hm as <- <- <- <- <- <-.
  apply eat_digits_spec in H2 as (? & p2 & ->), H4 as (? & p4 & ->),
    H6 as (? & p6 & ->), H8 as (? & p8 & ->).
  apply eat_bool_spec in H10 as (p10 & ->), H12 as (p12 & ->).
  apply eat_Some in H1 as ->, H3 as ->, H5 as ->, H7 as ->, H9 as ->,
    H11 as ->, H13 as ->.
  split; [done|].
  do 12 apply char_in_suffix. reflexivity.
Qed.

Lemma str_split_on_pieces sep s :
  Forall (fun w => char_in sep w = false) (str_split_on sep s).
Proof.
  induction s as [|c s IH]; simpl; [by repeat constructor|].
  destruct (Ascii.eqb c sep) eqn:Hc; [by constructor|].
  destruct (str_split_on sep s) as [|w ws]; simpl.
  - repeat constructor. simpl. by rewrite Hc.
  - inversion_clear IH as [|?? Hw Hws]. constructor; [|done].
    simpl. by rewrite Hc, Hw.
Qed.

Lemma str_split_on_two sep s :
  char_in sep s = true → ∃ w, str_split_on sep s !! 1%nat = Some w.
Proof.
  induction s as [|c s IH]; simpl; [done|].
  destruct (Ascii.eqb c sep); simpl.
  - intros _. exists (str_before sep s). apply str_split_on_head.
  - intros [w Hw]%IH. destruct (str_split_on sep s) as [|w1 ws]; [done|].
    by exists w.
Qed.

Lemma char_in_lstrip c s : char_in c (str_lstrip s) = true → char_in c s = true.
Proof.
  induction s as [|a s IH]; simpl; [done|].
  destruct (isspace a); [|done].
  intros ->%IH. apply orb_true_r.
Qed.

Lemma char_in_rstrip c s : char_in c (str_rstrip s) = true → char_in c s = true.
Proof.
  induction s as [|a s IH]; simpl; [done|].
  destruct (str_rstrip s) as [|b r] eqn:Hr.
  - destruct (isspace a); simpl; [done|].
    rewrite orb_false_r. intros ->. done.
  - simpl. intros [->|Hin]%orb_true_iff; [done|].
    simpl in IH. rewrite IH by done. apply orb_true_r.
Qed.

Lemma char_in_strip c s : char_in c s = false → char_in c (str_strip s) = false.
Proof.
  intros Hs. unfold str_strip.
  destruct (char_in c (str_rstrip (str_lstrip s))) eqn:Hin; [|done].
  apply char_in_rstrip, char_in_lstrip in Hin. congruence.
Qed.

Lemma str_rstrip_idem s : str_rstrip (str_rstrip s) = str_rstrip s.
Proof.
  induction s as [|a s IH]; simpl; [done|].
  destruct (str_rstrip s) as [|b r] eqn:Hr.
  - destruct (isspace a) eqn:Ha; simpl; [done|]. by rewrite Ha.
  - change (str_rstrip (String a (String b r)))
      with (match str_rstrip (String b r) with
            | EmptyString => if isspace a then EmptyString else String a EmptyString
            | r' => String a r'
            end).
    by rewrite IH.
Qed.

Lemma str_lstrip_clean s :
  match str_lstrip s with
  | String c _ => isspace c = false
  | EmptyString => True
  end.
Proof.
  induction s as [|a s IH]; simpl; [done|].
  by destruct (isspace a) eqn:Ha.
Qed.

Lemma str_rstrip_head s :
  match str_rstrip s with
  | String c _ => ∃ s', s = String c s'
  | EmptyString => True
  end.
Proof.
  destruct s as [|a s]; simpl; [done|].
  destruct (str_rstrip s); [destruct (isspace a)|]; eauto.
Qed.

Lemma str_strip_idem s : str_strip (str_strip s) = str_strip s.
Proof.
  unfold str_strip.
  assert (str_lstrip (str_rstrip (str_lstrip s)) = str_rstrip (str_lstrip s)) as ->.
  { pose proof (str_lstrip_clean s) as Hc.
    pose proof (str_rstrip_head (str_lstrip s)) as Hh.
    destruct (str_rstrip (str_lstrip s)) as [|c r]; [done|].
    destruct Hh as [s' Hs']. rewrite Hs' in Hc. simpl. by rewrite Hc. }
  apply str_rstrip_idem.
Qed.

Lemma parse_cell_cases raw :
  (match_cell raw = None ∧ parse_cell raw = Raise AttributeError)
  ∨ (∃ r c rs cs h m piece,
       match_cell raw = Some (r, c, rs, cs, h, m)
       ∧ str_split_on ">" raw !! 1%nat = Some piece
       ∧ parse_cell raw = Return (Cell r c rs cs (str_strip piece))).
Proof.
  unfold parse_cell.
  destruct (match_cell raw) as [[[[[[r c] rs] cs] h] m]|] eqn:Hm; [|by left].
  right. destruct (match_cell_Some _ _ _ _ _ _ _ Hm) as [_ Hgt].
  destruct (str_split_on_two _ _ Hgt) as [piece Hpiece].
  exists r, c, rs, cs, h, m, piece. unfold list_item. by rewrite Hpiece.
Qed.
End ParseSoundness.

(** The only failure of [parse_cells] is the [AttributeError] of
    [match.groups()]: the list is parsed, cell by cell, exactly when every
    raw cell matches the pattern, and the call raises [AttributeError] when
    one does not. The indexing [split('>')[1]] never fails. *)
Theorem parse_cells_failure (raws : list string) :
  (Forall (fun raw => is_Some (match_cell raw)) raws
   ∧ ∃ cells, parse_cells raws = Return cells ∧ length cells = length raws)
  ∨ (Exists (fun raw => match_cell raw = None) raws
     ∧ parse_cells raws = Raise AttributeError).
Proof.
  unfold parse_cells. induction raws as [|raw raws IH].
  - left. split; [constructor|]. by exists [].
  - simpl. destruct (parse_cell_cases raw)
      as [[Hnone ->]|(r & c & rs & cs & h & m & piece & Hm & _ & ->)].
    + right. split; [by left|done].
    + simpl. destruct IH as [[Hall (cells & -> & Hlen)]|[Hex ->]].
      * left. split; [constructor; [by rewrite Hm|done]|].
        eexists. split; [done|]. simpl. by rewrite Hlen.
      * right. split; [by right|done].
Qed.

(** What every parsed cell satisfies: its four numbers are not negative
    (they can be 0), and its text is stripped and contains no [>]. *)
Theorem parse_cells_invariants (raws : list string) (cells : list cell) :
  parse_cells raws = Return cells →
  Forall (fun c => 0 ≤ row c ∧ 0 ≤ col c ∧ 0 ≤ rowspan c ∧ 0 ≤ colspan c
                   ∧ char_in ">" (cell_text c) = false
                   ∧ str_strip (cell_text c) = cell_text c) cells.
Proof.
  unfold parse_cells. revert cells.
  induction raws as [|raw raws IH]; intros cells; simpl.
  - intros [= <-]. constructor.
  - destruct (parse_cell_cases raw)
      as [[_ ->]|(r & c & rs & cs & h & m & piece & Hm & Hpiece & ->)]; [done|].
    simpl. destruct (mapR parse_cell raws) as [cells'|]; simpl; [|done].
    intros [= <-]. constructor; [|by apply IH].
    destruct (match_cell_Some _ _ _ _ _ _ _ Hm) as [(? & ? & ? & ?) _].
    simpl. repeat split; try done.
    + apply char_in_strip.
      pose proof (str_split_on_pieces ">" raw) as Hall.
      rewrite Forall_lookup in Hall. by eapply Hall.
    + apply str_strip_idem.
Qed.

Lemma parse_cells_invariants_witness :
  Forall (fun c => 0 ≤ row c ∧ 0 ≤ col c ∧ 0 ≤ rowspan c ∧ 0 ≤ colspan c
                   ∧ char_in ">" (cell_text c) = false
                   ∧ str_strip (cell_text c) = cell_text c)
    [Cell 0 7 1 2 "a b"].
Proof.
  exact (parse_cells_invariants
    ["<Cell: (0,07), Span: (1, 2), Column Header: True, MergedCell: False> a b > c"]
    [Cell 0 7 1 2 "a b"] eq_refl).
Defined.

(** ** [create_expanded_dataframe] *)

Section FrameFacts.
Implicit Types (g : grid) (c : cell) (cells : list cell).

Lemma foldR_Raise_inv {S A : Type} (body : S → A → result S) (l : list A)
    (st : S) (e : exn) :
  foldR body st l = Raise e → ∃ st' a, a ∈ l ∧ body st' a = Raise e.
Proof.
  revert st. induction l as [|a l IH]; intros st; simpl; [done|].
  destruct (body st a) as [st1|e1] eqn:Hb; simpl.
  - intros (st' & a' & Hin & Hr)%IH. exists st', a'. split; [by right|done].
  - intros [= <-]. exists st, a. split; [by left|done].
Qed.

Lemma py_index_Raise (len : nat) (i : Z) (e : exn) :
  py_index len i = Raise e → e = IndexError.
Proof. unfold py_index. repeat case_bool_decide; congruence. Qed.

Lemma grid_set_Raise g (i j : Z) (t : string) (e : exn) :
  grid_set g i j t = Raise e → e = IndexError.
Proof.
  unfold grid_set.
  destruct (py_index (length g) i) as [i'|e1] eqn:Hi; simpl;
    [|intros [= <-]; by eapply py_index_Raise].
  unfold list_item. destruct (g !! i') as [line|]; simpl; [|congruence].
  destruct (py_index (length line) j) as [j'|e2] eqn:Hj; simpl;
    [done|intros [= <-]; by eapply py_index_Raise].
Qed.

Lemma fill_cell_Raise g c (e : exn) : fill_cell g c = Raise e → e = IndexError.
Proof.
  rewrite fill_cell_footprint.
  intros (g' & p & _ & Hset)%foldR_Raise_inv. by eapply grid_set_Raise.
Qed.

Lemma build_table_Raise cells (e : exn) :
  build_table cells = Raise e →
  (cells = [] ∧ e = ValueError) ∨ (cells ≠ [] ∧ e = IndexError).
Proof.
  destruct cells as [|c cells]; [intros [= <-]; by left|].
  intros Hb. right. split; [done|]. revert Hb. unfold build_table.
  destruct (py_max_spec (row <$> c :: cells)) as (R & -> & _); [done|].
  destruct (py_max_spec (col <$> c :: cells)) as (C & -> & _); [done|].
  cbn [mbind result_bind].
  intros (g' & c' & _ & Hfill)%foldR_Raise_inv. by eapply fill_cell_Raise.
Qed.

Lemma rect_ext R C g1 g2 :
  rect R C g1 → rect R C g2 →
  (∀ i j, cell_at g1 i j = cell_at g2 i j) → g1 = g2.
Proof.
  intros [Hl1 Hr1] [Hl2 Hr2] Hat. apply list_eq. intros i.
  destruct (g1 !! i) as [l1|] eqn:H1, (g2 !! i) as [l2|] eqn:H2.
  - f_equal. apply list_eq. intros j.
    specialize (Hat i j). unfold cell_at in Hat. by rewrite H1, H2 in Hat.
  - apply lookup_lt_Some in H1. apply lookup_ge_None in H2. lia.
  - apply lookup_lt_Some in H2. apply lookup_ge_None in H1. lia.
  - done.
Qed.

Lemma last_cover_elem cells (i j : Z) c :
  last_cover cells i j = Some c → c ∈ cells ∧ covers c i j.
Proof.
  intros (l1 & l2 & -> & Hc & _)%last_cover_Some. split; [|done].
  apply elem_of_app. right. by left.
Qed.

Lemma is_max_perm (m : Z) (l1 l2 : list Z) : l1 ≡ₚ l2 → is_max m l1 → is_max m l2.
Proof. intros Hp [Hin Hle]. split; by rewrite <- Hp. Qed.
End FrameFacts.

(** The only exceptions of [create_expanded_dataframe]: [ValueError] for
    an empty list of cells and [IndexError] for a non-empty one (an
    assignment outside the grid, or a grid without a header row). *)
Theorem create_expanded_dataframe_errors (cells : list cell) (e : exn) :
  create_expanded_dataframe cells = Raise e →
  (cells = [] ∧ e = ValueError) ∨ (cells ≠ [] ∧ e = IndexError).
Proof.
  unfold create_expanded_dataframe.
  destruct (build_table cells) as [g|e'] eqn:Hb; simpl.
  - destruct g; [|done]. intros [= <-]. right. split; [|done].
    intros ->. discriminate Hb.
  - intros [= <-]. by apply build_table_Raise.
Qed.

Lemma create_expanded_dataframe_errors_witness :
  ([Cell 0 1 0 1 "x"] = [] ∧ IndexError = ValueError)
  ∨ ([Cell 0 1 0 1 "x"] ≠ [] ∧ IndexError = IndexError).
Proof.
  exact (create_expanded_dataframe_errors [Cell 0 1 0 1 "x"] IndexError eq_refl).
Defined.

(** The header/data split. When the footprints fit a grid of [R >= 1]
    rows and [C] columns, the frame has the first grid row as its [C]
    column labels and the other [R - 1] rows as data rows of [C] cells
    each; a one-row grid gives a frame with labels and no data row. *)
Theorem create_expanded_dataframe_shape (cells : list cell) (R C : Z) :
  is_max R (row <$> cells) → is_max C (col <$> cells) → 1 ≤ R →
  Forall (inside R C) cells →
  ∃ header data,
    build_table cells = Return (header :: data)
    ∧ create_expanded_dataframe cells = Return (DataFrame header data)
    ∧ length header = Z.to_nat C
    ∧ length data = Z.to_nat (R - 1)
    ∧ Forall (fun line => length line = Z.to_nat C) data.
Proof.
  intros HR HC HR1 Hin. unfold create_expanded_dataframe.
  rewrite (build_table_unfold cells R C HR HC).
  destruct (fill_cells_inside (Z.to_nat R) (Z.to_nat C) cells
              (replicate (Z.to_nat R) (replicate (Z.to_nat C) EmptyString)))
    as (g & -> & [Hlen Hrows] & _).
  { apply rect_blank. }
  { eapply Forall_impl; [exact Hin|]. intros c Hc i j Hcov.
    specialize (Hc i j Hcov). lia. }
  destruct g as [|header data]; [simpl in Hlen; lia|].
  exists header, data. apply Forall_cons in Hrows as [Hh Hd].
  simpl in Hlen. repeat split; try done. lia.
Qed.

Lemma create_expanded_dataframe_shape_witness :
  ∃ header data,
    build_table [Cell 1 1 1 1 "Name"; Cell 1 2 1 1 "Age"] = Return (header :: data)
    ∧ create_expanded_dataframe [Cell 1 1 1 1 "Name"; Cell 1 2 1 1 "Age"]
      = Return (DataFrame header data)
    ∧ length header = 2%nat
    ∧ length data = 0%nat
    ∧ Forall (fun line => length line = 2%nat) data.
Proof.
  apply (create_expanded_dataframe_shape
           [Cell 1 1 1 1 "Name"; Cell 1 2 1 1 "Age"] 1 2).
  - solve_is_max.
  - solve_is_max.
  - lia.
  - solve_Forall ltac:(unfold inside, covers; simpl; intros i j; lia).
Defined.

(** The order of the cells only matters where footprints overlap with
    different texts: two lists of cells that are permutations of each
    other, fit the grid, and carry the same text wherever two footprints
    meet, expand to the same grid. *)
Theorem build_table_permutation (cells cells' : list cell) (R C : Z) :
  cells ≡ₚ cells' →
  is_max R (row <$> cells) → is_max C (col <$> cells) →
  Forall (inside R C) cells →
  (∀ c1 c2 i j, c1 ∈ cells → c2 ∈ cells → covers c1 i j → covers c2 i j →
                cell_text c1 = cell_text c2) →
  ∃ g, build_table cells = Return g ∧ build_table cells' = Return g.
Proof.
  intros Hperm HR HC Hin Hsame.
  assert (is_max R (row <$> cells') ∧ is_max C (col <$> cells')) as [HR' HC'].
  { split; eapply is_max_perm; try eassumption; by apply fmap_Permutation. }
  rewrite (build_table_unfold cells R C HR HC).
  rewrite (build_table_unfold cells' R C HR' HC').
  assert (∀ l, Forall (inside R C) l →
            Forall (inside (Z.of_nat (Z.to_nat R)) (Z.of_nat (Z.to_nat C))) l)
    as Hnat.
  { intros l Hl. eapply Forall_impl; [exact Hl|]. intros c Hc i j Hcov.
    specialize (Hc i j Hcov). lia. }
  destruct (fill_cells_inside (Z.to_nat R) (Z.to_nat C) cells
              (replicate (Z.to_nat R) (replicate (Z.to_nat C) EmptyString)))
    as (g & Hg & Hrect & Hat); [apply rect_blank|by apply Hnat|].
  destruct (fill_cells_inside (Z.to_nat R) (Z.to_nat C) cells'
              (replicate (Z.to_nat R) (replicate (Z.to_nat C) EmptyString)))
    as (g' & Hg' & Hrect' & Hat');
    [apply rect_blank|apply Hnat; by rewrite <- Hperm|].
  exists g. split; [done|]. rewrite Hg'. f_equal.
  apply (rect_ext (Z.to_nat R) (Z.to_nat C)); [done..|].
  intros i j. symmetry. rewrite Hat, Hat'.
  destruct (last_cover cells (Z.of_nat i) (Z.of_nat j)) as [c|] eqn:Hl,
           (last_cover cells' (Z.of_nat i) (Z.of_nat j)) as [c'|] eqn:Hl'.
  - apply last_cover_elem in Hl as [Hc Hcov], Hl' as [Hc' Hcov'].
    f_equal. apply (Hsame c c' (Z.of_nat i) (Z.of_nat j)); try done.
    by rewrite Hperm.
  - apply last_cover_elem in Hl as [Hc Hcov].
    apply last_cover_None in Hl'. rewrite Forall_forall in Hl'.
    destruct (Hl' c); [|done]. by rewrite <- Hperm.
  - apply last_cover_elem in Hl' as [Hc Hcov].
    apply last_cover_None in Hl. rewrite Forall_forall in Hl.
    destruct (Hl c'); [|done]. by rewrite Hperm.
  - done.
Qed.

Lemma build_table_permutation_witness :
  ∃ g, build_table [Cell 1 1 1 2 "A"; Cell 2 1 1 1 "B"; Cell 2 2 1 1 "C"] = Return g
    ∧ build_table [Cell 2 2 1 1 "C"; Cell 1 1 1 2 "A"; Cell 2 1 1 1 "B"] = Return g.
Proof.
  apply (build_table_permutation
           [Cell 1 1 1 2 "A"; Cell 2 1 1 1 "B"; Cell 2 2 1 1 "C"]
           [Cell 2 2 1 1 "C"; Cell 1 1 1 2 "A"; Cell 2 1 1 1 "B"] 2 2).
  - by rewrite (Permutation_cons_append [_; _] (Cell 2 2 1 1 "C")).
  - solve_is_max.
  - solve_is_max.
  - solve_Forall ltac:(unfold inside, covers; simpl; intros i j; lia).
  - intros c1 c2 i j H1 H2.
    repeat (apply elem_of_cons in H1 as [->|H1]);
      repeat (apply elem_of_cons in H2 as [->|H2]);
      try (by apply elem_of_nil in H1); try (by apply elem_of_nil in H2);
      unfold covers; simpl; first [done|lia].
Defined.

Section WrapFacts.
Implicit Types (g : grid) (c : cell) (cells : list cell).

Lemma grid_set_rect R C g (i j : Z) (t : string) g' :
  rect R C g → grid_set g i j t = Return g' → rect R C g'.
Proof.
  intros [Hlen Hrows]. unfold grid_set.
  destruct (py_index (length g) i) as [i'|]; cbn [mbind result_bind]; [|done].
  unfold list_item. destruct (g !! i') as [line|] eqn:Hline;
    cbn [mbind result_bind]; [|done].
  destruct (py_index (length line) j) as [j'|]; cbn [mbind result_bind]; [|done].
  intros [= <-]. split; [by rewrite length_insert|].
  apply Forall_insert; [done|]. rewrite length_insert.
  rewrite Forall_lookup in Hrows. by eapply Hrows.
Qed.

(** A negative row index addresses the grid from its last row. *)
Lemma grid_set_negative R C g (i j : Z) (t : string) :
  rect R C g → - Z.of_nat R ≤ i < 0 →
  grid_set g i j t = grid_set g (Z.of_nat R + i) j t.
Proof.
  intros [Hlen _] Hi. unfold grid_set, py_index. rewrite Hlen.
  rewrite (bool_decide_eq_false_2 (0 ≤ i < Z.of_nat R)) by lia.
  rewrite (bool_decide_eq_true_2 (- Z.of_nat R ≤ i < 0)) by lia.
  rewrite (bool_decide_eq_true_2 (0 ≤ Z.of_nat R + i < Z.of_nat R)) by lia.
  done.
Qed.

Lemma assign_negative R C (t : string) (ps : list (Z * Z)) g :
  rect R C g → Forall (fun p => - Z.of_nat R ≤ p.1 < 0) ps →
  foldR (assign t) g ps
  = foldR (assign t) g ((fun p => (Z.of_nat R + p.1, p.2)) <$> ps).
Proof.
  intros Hg Hps. revert g Hg.
  induction Hps as [|[pi pj] ps Hp Hps IH]; intros g Hg; [done|].
  rewrite fmap_cons, !foldR_cons. cbn beta. cbn [fst snd].
  assert (assign t g (pi, pj) = assign t g (Z.of_nat R + pi, pj)) as ->.
  { unfold assign. cbn [fst snd] in *. by apply (grid_set_negative R C). }
  destruct (assign t g (Z.of_nat R + pi, pj)) as [g1|] eqn:Hset;
    cbn [mbind result_bind]; [|done].
  apply IH. by eapply grid_set_rect.
Qed.
End WrapFacts.

(** Row 0 is not rejected. The pattern of [parse_cells] admits a cell
    anchored at row 0; when such a cell of one row comes last, the
    expansion succeeds and its text lands in the last row of the grid,
    because the index [-1] counts from the end. *)
Theorem build_table_row_zero (cells : list cell) (c0 : cell) (R C : Z) :
  is_max R (row <$> cells) → is_max C (col <$> cells) →
  Forall (inside R C) cells → 1 ≤ R →
  row c0 = 0 → rowspan c0 = 1 →
  1 ≤ col c0 → 1 ≤ colspan c0 → col c0 - 1 + colspan c0 ≤ C →
  ∃ g, build_table (cells ++ [c0]) = Return g
    ∧ length g = Z.to_nat R
    ∧ ∀ j : nat, col c0 - 1 ≤ Z.of_nat j < col c0 - 1 + colspan c0 →
        cell_at g (Z.to_nat (R - 1)) j = Some (cell_text c0).
Proof.
  intros HR HC Hin HR1 Hrow Hrs Hcol Hcs Hfit.
  assert (is_max R (row <$> cells ++ [c0]) ∧ is_max C (col <$> cells ++ [c0]))
    as [HR' HC'].
  { destruct HR as [HRin HRle], HC as [HCin HCle]. rewrite !fmap_app.
    split; (split; [apply elem_of_app; by left|]);
      (apply Forall_app; split; [done|]); repeat constructor; lia. }
  rewrite (build_table_unfold _ R C HR' HC'), foldR_app.
  destruct (fill_cells_inside (Z.to_nat R) (Z.to_nat C) cells
              (replicate (Z.to_nat R) (replicate (Z.to_nat C) EmptyString)))
    as (g1 & -> & Hrect1 & _).
  { apply rect_blank. }
  { eapply Forall_impl; [exact Hin|]. intros c Hc i j Hcov.
    specialize (Hc i j Hcov). lia. }
  cbn [mbind result_bind]. rewrite foldR_cons, fill_cell_footprint.
  rewrite (assign_negative (Z.to_nat R) (Z.to_nat C)); [|done|].
  2: { apply Forall_forall. intros [i j] [Hi _]%elem_of_footprint. simpl. lia. }
  destruct (assign_all_in (Z.to_nat R) (Z.to_nat C) (cell_text c0)
              ((fun p => (Z.of_nat (Z.to_nat R) + p.1, p.2)) <$> footprint c0) g1)
    as (g & -> & [Hlen _] & Hat); [done|..].
  { apply Forall_fmap, Forall_forall.
    intros [i j] [Hi Hj]%elem_of_footprint. simpl. lia. }
  exists g. cbn [mbind result_bind foldR]. split; [done|]. split; [done|].
  intros j Hj. rewrite Hat. rewrite decide_True; [done|].
  apply list_elem_of_fmap. exists (-1, Z.of_nat j). split.
  - simpl. f_equal. lia.
  - apply elem_of_footprint. unfold covers. lia.
Qed.

Lemma build_table_row_zero_witness :
  ∃ g, build_table ([Cell 1 1 1 1 "a"; Cell 2 1 1 1 "b"] ++ [Cell 0 1 1 1 "z"])
       = Return g
    ∧ length g = 2%nat
    ∧ ∀ j : nat, 1 - 1 ≤ Z.of_nat j < 1 - 1 + 1 →
        cell_at g (Z.to_nat (2 - 1)) j = Some "z".
Proof.
  apply (build_table_row_zero [Cell 1 1 1 1 "a"; Cell 2 1 1 1 "b"]
           (Cell 0 1 1 1 "z") 2 1); try done.
  - solve_is_max.
  - solve_is_max.
  - solve_Forall ltac:(unfold inside, covers; simpl; intros i j; lia).
Defined.

(** ** [prepare_counter] *)

Section MoreCounterFacts.
Implicit Types (l : list string) (t : string) (elements : list element).

Lemma occurrences_texts_of cat t elements :
  occurrences t (texts_of cat elements)
  = length (filter (fun el => category el = cat ∧ text el = t) elements).
Proof.
  unfold occurrences, texts_of.
  induction elements as [|el elements IH]; [done|].
  rewrite (filter_cons (fun el => category el = cat)).
  rewrite (filter_cons (fun el => category el = cat ∧ text el = t)).
  destruct (decide (category el = cat)) as [Hcat|Hcat].
  - rewrite fmap_cons, filter_cons.
    destruct (decide (text el = t)) as [Ht|Ht].
    + rewrite decide_True by done. simpl. by rewrite IH.
    + rewrite decide_False by (by intros [_ ?]). done.
  - rewrite decide_False by (by intros [? _]). done.
Qed.

Lemma counted_split_length t elements :
  length (filter (fun el => counted el ∧ text el = t) elements)
  = (length (filter (fun el => category el = "Title" ∧ text el = t) elements)
     + length (filter (fun el => category el = "NarrativeText" ∧ text el = t) elements)
     + length (filter (fun el => category el = "Text" ∧ text el = t) elements))%nat.
Proof.
  induction elements as [|el elements IH]; [done|].
  rewrite !filter_cons. unfold counted in *.
  destruct (decide (text el = t)) as [Ht|Ht].
  - destruct (decide (category el = "Title")) as [H1|H1];
    destruct (decide (category el = "NarrativeText")) as [H2|H2];
    destruct (decide (category el = "Text")) as [H3|H3];
      try congruence;
      repeat (first [rewrite decide_True by tauto|rewrite decide_False by tauto]);
      simpl; lia.
  - repeat rewrite decide_False by tauto. done.
Qed.

Lemma occurrences_cons_eq t l : occurrences t (t :: l) = S (occurrences t l).
Proof. unfold occurrences. by rewrite filter_cons_True. Qed.

Lemma occurrences_cons_ne t x l : x ≠ t → occurrences t (x :: l) = occurrences t l.
Proof. intros Hne. unfold occurrences. by rewrite filter_cons_False. Qed.

Lemma Counter_foldl_lookup l (m : gmap string nat) t :
  foldl (fun m t => <[t := S (default 0%nat (m !! t))]> m) m l !! t
  = if decide (t ∈ l)
    then Some (default 0 (m !! t) + occurrences t l)%nat
    else m !! t.
Proof.
  revert m. induction l as [|x l IH]; intros m; cbn [foldl].
  - rewrite decide_False; [done|apply not_elem_of_nil].
  - rewrite IH. destruct (decide (x = t)) as [->|Hne].
    + rewrite lookup_insert_eq, occurrences_cons_eq.
      rewrite (decide_True (P := t ∈ t :: l)) by by left.
      destruct (decide (t ∈ l)); f_equal; simpl; [lia|].
      rewrite occurrences_0 by done. lia.
    + rewrite lookup_insert_ne, occurrences_cons_ne by done.
      destruct (decide (t ∈ l)) as [Hin|Hin].
      * rewrite decide_True by by right. done.
      * rewrite decide_False; [done|]. by intros [?|?]%elem_of_cons.
Qed.

Lemma Counter_lookup l t :
  Counter l !! t = if decide (t ∈ l) then Some (occurrences t l) else None.
Proof. unfold Counter. by rewrite Counter_foldl_lookup, lookup_empty. Qed.

Lemma Counter_perm l1 l2 : l1 ≡ₚ l2 → Counter l1 = Counter l2.
Proof.
  intros Hp. apply map_eq. intros t. rewrite !Counter_lookup.
  assert (occurrences t l1 = occurrences t l2) as ->.
  { unfold occurrences. by rewrite Hp. }
  destruct (decide (t ∈ l1)) as [H1|H1].
  - rewrite decide_True; [done|]. by rewrite <- Hp.
  - rewrite decide_False; [done|]. by rewrite <- Hp.
Qed.
End MoreCounterFacts.

(** What the counter counts: the count of [t] is the number of [Title],
    [NarrativeText] and [Text] elements whose text is exactly [t]; list
    items, tables, page breaks and all other elements count for nothing. *)
Theorem prepare_counter_count (elements : list element) (t : string) :
  counter_get (prepare_counter elements) t
  = length (filter (fun el => counted el ∧ text el = t) elements).
Proof.
  rewrite counter_get_prepare_counter, !occurrences_texts_of.
  by rewrite counted_split_length.
Qed.

(** The counter does not depend on the order of the elements. *)
Theorem prepare_counter_permutation (elements elements' : list element) :
  elements ≡ₚ elements' → prepare_counter elements = prepare_counter elements'.
Proof.
  intros Hp. unfold prepare_counter, texts_of. apply Counter_perm.
  by rewrite Hp.
Qed.

Lemma prepare_counter_permutation_witness :
  prepare_counter [Title "a"; Text "b"; Text "a"]
  = prepare_counter [Text "a"; Title "a"; Text "b"].
Proof.
  apply (prepare_counter_permutation [Title "a"; Text "b"; Text "a"]
                                     [Text "a"; Title "a"; Text "b"]).
  by rewrite (Permutation_cons_append [_; _] (Text "a")).
Defined.

(** In the pipeline of [main] the test [all_counter[text] != 0] never
    fires for a [Title], [NarrativeText] or [Text] element of the
    document: its own occurrence is counted, so it passes the filter
    exactly when its text occurs fewer than 10 times. *)
Theorem counted_element_kept_iff (elements : list element) (el : element) :
  el ∈ elements → counted el →
  (1 ≤ counter_get (prepare_counter elements) (text el))%nat
  ∧ (keep_text (prepare_counter elements) (text el) = true
     ↔ (counter_get (prepare_counter elements) (text el) < 10)%nat).
Proof.
  intros Hin Hc.
  assert (1 ≤ counter_get (prepare_counter elements) (text el))%nat as H1.
  { rewrite counter_get_prepare_counter, !occurrences_texts_of.
    rewrite <- counted_split_length.
    assert (el ∈ filter (fun el' => counted el' ∧ text el' = text el) elements)
      as Hf by by apply list_elem_of_filter.
    destruct (filter _ elements); [by apply elem_of_nil in Hf|simpl; lia]. }
  split; [done|]. rewrite keep_text_spec. lia.
Qed.

Lemma counted_element_kept_iff_witness :
  (1 ≤ counter_get (prepare_counter [Text "x"; ListItem "y"]) "x")%nat
  ∧ (keep_text (prepare_counter [Text "x"; ListItem "y"]) "x" = true
     ↔ (counter_get (prepare_counter [Text "x"; ListItem "y"]) "x" < 10)%nat).
Proof.
  apply (counted_element_kept_iff [Text "x"; ListItem "y"] (Text "x")).
  - by left.
  - right. by right.
Defined.

(** ** [create_parsed_dictionary] *)

Lemma str_of_int_inj (n m : Z) : str_of_int n = str_of_int m → n = m.
Proof.
  unfold str_of_int. intros Heq. apply DecimalZ.to_int_inj.
  assert (∀ z, Z.to_int z ≠ Decimal.Pos Decimal.Nil
               ∧ Z.to_int z ≠ Decimal.Neg Decimal.Nil) as Hnn.
  { intros [|p|p]; simpl; split; try done;
      intros [= Hp]; by apply DecimalPos.Unsigned.to_uint_nonnil in Hp. }
  destruct (Hnn n) as [Hn1 Hn2], (Hnn m) as [Hm1 Hm2].
  pose proof (NilZero.isi _ Hn1 Hn2) as Hin.
  pose proof (NilZero.isi _ Hm1 Hm2) as Him.
  rewrite Heq in Hin. congruence.
Qed.

Lemma page_key_inj_aux (n m : Z) : page_key n = page_key m → n = m.
Proof.
  unfold page_key. intros Heq%(inj (String.app "page_")).
  by apply str_of_int_inj.
Qed.

(** Different page numbers never share a key. *)
Theorem page_key_inj (n m : Z) : page_key n = page_key m → n = m.
Proof.
  unfold page_key. intros Heq.
  apply str_of_int_inj. by apply (inj (String.app "page_")).
Qed.

Lemma page_key_inj_witness : 12 = 12.
Proof. exact (page_key_inj 12 12 eq_refl). Defined.

Lemma foldR_Raise_split {S A : Type} (body : S → A → result S) (l : list A)
    (st : S) (e : exn) :
  foldR body st l = Raise e →
  ∃ l1 a l2 st', l = l1 ++ a :: l2 ∧ foldR body st l1 = Return st'
                 ∧ body st' a = Raise e.
Proof.
  revert st. induction l as [|a l IH]; intros st; simpl; [done|].
  destruct (body st a) as [st1|e1] eqn:Hb; simpl.
  - intros (l1 & a' & l2 & st' & -> & Hl1 & Hr)%IH.
    exists (a :: l1), a', l2, st'. split; [done|]. split; [|done].
    simpl. by rewrite Hb.
  - intros [= <-]. by exists [], a, l, st.
Qed.

Lemma parse_cells_Raise (raws : list string) (e : exn) :
  parse_cells raws = Raise e → e = AttributeError.
Proof.
  unfold parse_cells. induction raws as [|raw raws IH]; simpl; [done|].
  destruct (parse_cell_cases raw)
    as [[_ ->]|(r & c & rs & cs & h & m & piece & _ & _ & ->)]; simpl.
  - by intros [= <-].
  - destruct (mapR parse_cell raws); simpl; [done|]. intros [= <-]. by apply IH.
Qed.

Lemma frame_of_Raise (raw_cells : list string) (e : exn) :
  frame_of raw_cells = Raise e →
  e = AttributeError ∨ e = ValueError ∨ e = IndexError.
Proof.
  unfold frame_of.
  destruct (parse_cells raw_cells) as [cells|e1] eqn:Hp; simpl.
  - unfold create_expanded_dataframe.
    destruct (build_table cells) as [g|e2] eqn:Hb; simpl.
    + destruct g; [|done]. intros [= <-]. auto.
    + intros [= <-]. destruct (build_table_Raise _ _ Hb) as [[_ ->]|[_ ->]]; auto.
  - intros [= <-]. left. by eapply parse_cells_Raise.
Qed.

Lemma mapR_Raise_inv {A B : Type} (f : A → result B) (l : list A) (e : exn) :
  mapR f l = Raise e → ∃ a, a ∈ l ∧ f a = Raise e.
Proof.
  induction l as [|a l IH]; simpl; [done|].
  destruct (f a) as [b|e1] eqn:Hf; simpl.
  - destruct (mapR f l); simpl; [done|]. intros [= <-].
    destruct IH as (a' & Hin & Ha'); [done|]. exists a'. split; [by right|done].
  - intros [= <-]. exists a. split; [by left|done].
Qed.

Section MoreAssemblerFacts.
Variable analyze : string → nat → Z → list (Z * Z) → result (list (list string)).
Variable to_markdown : dataframe → string.
Variable all_counter : gmap string nat.
Variable pdf_path : string.

Local Abbreviation do_step := (step analyze to_markdown all_counter pdf_path).
Local Abbreviation do_run := (run analyze to_markdown all_counter pdf_path).
Local Abbreviation do_table := (process_table analyze to_markdown pdf_path).
Local Abbreviation assemble :=
  (create_parsed_dictionary analyze to_markdown all_counter pdf_path).

Implicit Types (st : state) (el : element) (d : pydict).

Lemma str_concat_cons s (l : list string) :
  str_concat (s :: l) = s +:+ str_concat l.
Proof. reflexivity. Qed.

Lemma dict_set_same (k v : string) d : dict_get k d = Some v → dict_set k v d = d.
Proof.
  induction d as [|[k' w] d IH]; simpl; [done|].
  destruct (decide (k' = k)); [congruence|]. intros Hv. by rewrite IH.
Qed.

Lemma render_table_frame (cur : string) d (raw : list string) :
  render_table to_markdown cur d raw
  = df ← frame_of raw;
    d1 ← dict_iadd cur (to_markdown (clean_frame df)) d;
    dict_iadd cur nl d1.
Proof.
  unfold render_table, frame_of.
  destruct (parse_cells raw) as [cells|]; cbn [mbind result_bind]; [|done].
  by destruct (create_expanded_dataframe cells).
Qed.

(** The loop over the detected tables, as one update of the page. *)
Lemma render_loop (cur v : string) (tables : list (list string)) d :
  dict_get cur d = Some v →
  foldR (render_table to_markdown cur) d tables
  = dfs ← mapR frame_of tables;
    Return (dict_set cur (v +:+ str_concat (table_block to_markdown <$> dfs)) d).
Proof.
  revert d v. induction tables as [|raw tables IH]; intros d v Hv.
  - cbn. rewrite app_nil_r. by rewrite dict_set_same.
  - rewrite foldR_cons, render_table_frame. cbn [mapR].
    destruct (frame_of raw) as [df|e]; cbn [mbind result_bind]; [|done].
    rewrite (dict_iadd_twice cur _ nl v d Hv). cbn [mbind result_bind].
    rewrite (IH _ (v +:+ to_markdown (clean_frame df) +:+ nl))
      by apply dict_get_set_eq.
    destruct (mapR frame_of tables) as [dfs|e]; cbn [mbind result_bind]; [|done].
    rewrite dict_set_set, fmap_cons, str_concat_cons.
    unfold table_block at 2. by rewrite !app_assoc.
Qed.

Lemma process_table_equation st el :
  wf_state st →
  do_table st el
  = tables ← analyze pdf_path (calls st) (page_number (metadata el))
                     (points (metadata el));
    dfs ← mapR frame_of tables;
    Return (State
      (dict_set (curr_page st)
         (page_text st +:+ nl +:+ str_concat (table_block to_markdown <$> dfs))
         (parsed_doc st))
      (curr_page st) (page_number (metadata el)) (S (calls st))).
Proof.
  intros [_ [v Hv]]. unfold process_table, page_text. rewrite Hv.
  rewrite (dict_iadd_Some _ _ _ _ Hv). cbn [mbind result_bind default from_option].
  destruct (analyze _ _ _ _) as [tables|e]; cbn [mbind result_bind]; [|done].
  rewrite (render_loop _ (v +:+ nl)) by apply dict_get_set_eq.
  destruct (mapR frame_of tables) as [dfs|e]; cbn [mbind result_bind]; [|done].
  by rewrite dict_set_set, app_assoc.
Qed.

(** Outside the [PageBreak] and [Table] branches a step leaves the state
    as it is or appends the text and a separator to the current page. *)
Lemma step_text_cases st el :
  wf_state st → category el ≠ "Table" → category el ≠ "PageBreak" →
  do_step st el = Return st
  ∨ ∃ sep, do_step st el
           = Return (with_page_text st (page_text st +:+ text el +:+ sep)).
Proof.
  intros Hwf Ht Hp. unfold step.
  repeat case_decide; try done; repeat case_match;
    rewrite ?(append_text_wf _ _ _ Hwf); eauto.
Qed.

(** The Table branch as a function of the service answer. In a state
    reached by the assembler, a [Table] element calls the service once;
    when the service answers with tables that all parse and expand, the
    current page receives a newline and then, for each table in order,
    its rendering and a newline, and the running page number becomes the
    element's own page number. An exception of the service, or of the
    first table that fails, is the result of the step. *)
Theorem table_step_equation (pre : list element) st el :
  do_run pre = Return st → category el = "Table" →
  do_step st el
  = tables ← analyze pdf_path (calls st) (page_number (metadata el))
                     (points (metadata el));
    dfs ← mapR frame_of tables;
    Return (State
      (dict_set (curr_page st)
         (page_text st +:+ nl +:+ str_concat (table_block to_markdown <$> dfs))
         (parsed_doc st))
      (curr_page st) (page_number (metadata el)) (S (calls st))).
Proof.
  intros Hwf%run_wf Hcat. rewrite step_table by done.
  by apply process_table_equation.
Qed.

(** The assembler fails only at a [Table] element: when it raises [e],
    the elements before some table were processed without failure and the
    processing of that table raised [e]. No other branch can raise; in
    particular the dict is never read at a missing key. *)
Theorem assembler_failure_source (elements : list element) (e : exn) :
  assemble elements = Raise e →
  ∃ pre el post st,
    elements = pre ++ el :: post ∧ category el = "Table"
    ∧ do_run pre = Return st ∧ do_table st el = Raise e.
Proof.
  unfold create_parsed_dictionary.
  destruct (run _ _ _ _ elements) as [st|e'] eqn:Hrun;
    cbn [mbind result_bind]; [done|].
  intros [= <-].
  apply foldR_Raise_split in Hrun as (pre & el & post & st & -> & Hpre & Hstep).
  exists pre, el, post, st.
  pose proof (run_wf _ _ _ _ _ _ Hpre) as Hwf.
  destruct (decide (category el = "Table")) as [Hcat|Hcat].
  - rewrite step_table in Hstep by done. done.
  - destruct (step_no_table analyze to_markdown all_counter pdf_path st el Hwf Hcat)
      as [st' Hst']. congruence.
Qed.

(** The exceptions of the Table branch: the one raised by the service, or
    [AttributeError] (a cell that does not match), [ValueError] (a table
    without cells) or [IndexError] (a span outside the grid, or a grid
    without rows) for the first table that fails. *)
Theorem table_step_errors (pre : list element) st el (e : exn) :
  do_run pre = Return st → do_table st el = Raise e →
  analyze pdf_path (calls st) (page_number (metadata el)) (points (metadata el))
    = Raise e
  ∨ e = AttributeError ∨ e = ValueError ∨ e = IndexError.
Proof.
  intros Hwf%run_wf. rewrite process_table_equation by done.
  destruct (analyze _ _ _ _) as [tables|e1]; cbn [mbind result_bind];
    [|intros [= <-]; by left].
  destruct (mapR frame_of tables) as [dfs|e2] eqn:Hm; cbn [mbind result_bind];
    [done|].
  intros [= <-]. right.
  apply mapR_Raise_inv in Hm as (raw & _ & Hraw). by eapply frame_of_Raise.
Qed.

(** Frame of a step that is not a [PageBreak]: the key list, the current
    page key and the entries of all other pages stay as they are, and the
    entry of the current page only grows at its end. *)
Theorem step_frame (pre : list element) st el st' :
  do_run pre = Return st → category el ≠ "PageBreak" →
  do_step st el = Return st' →
  curr_page st' = curr_page st
  ∧ (parsed_doc st').*1 = (parsed_doc st).*1
  ∧ (∀ k, k ≠ curr_page st →
       dict_get k (parsed_doc st') = dict_get k (parsed_doc st))
  ∧ ∃ added, dict_get (curr_page st) (parsed_doc st')
             = Some (page_text st +:+ added).
Proof.
  intros Hwf%run_wf Hpb Hstep.
  assert (∀ s, let st1 := with_page_text st (page_text st +:+ s) in
     curr_page st1 = curr_page st
     ∧ (parsed_doc st1).*1 = (parsed_doc st).*1
     ∧ (∀ k, k ≠ curr_page st →
          dict_get k (parsed_doc st1) = dict_get k (parsed_doc st))
     ∧ ∃ added, dict_get (curr_page st) (parsed_doc st1)
                = Some (page_text st +:+ added)) as Hgrow.
  { intros s. simpl. split; [done|]. split; [by apply keys_with_page_text|].
    split; [intros k Hk; by apply dict_get_set_ne|].
    exists s. apply dict_get_set_eq. }
  destruct (decide (category el = "Table")) as [Hcat|Hcat].
  - rewrite step_table, process_table_equation in Hstep by done.
    destruct (analyze _ _ _ _) as [tables|]; cbn [mbind result_bind] in Hstep;
      [|done].
    destruct (mapR frame_of tables) as [dfs|]; cbn [mbind result_bind] in Hstep;
      [|done].
    injection Hstep as <-.
    exact (Hgrow (nl +:+ str_concat (table_block to_markdown <$> dfs))).
  - destruct (step_text_cases st el Hwf Hcat Hpb) as [Hs|[sep Hs]];
      rewrite Hs in Hstep; injection Hstep as <-.
    + split; [done|]. split; [done|]. split; [done|].
      exists EmptyString. rewrite app_nil_r.
      destruct Hwf as [_ [v Hv]]. unfold page_text. by rewrite Hv.
    + exact (Hgrow (text el +:+ sep)).
Qed.
End MoreAssemblerFacts.

Section PageFacts.
Variable analyze : string → nat → Z → list (Z * Z) → result (list (list string)).
Variable to_markdown : dataframe → string.
Variable all_counter : gmap string nat.
Variable pdf_path : string.

Local Abbreviation do_step := (step analyze to_markdown all_counter pdf_path).
Local Abbreviation do_run := (run analyze to_markdown all_counter pdf_path).
Local Abbreviation assemble :=
  (create_parsed_dictionary analyze to_markdown all_counter pdf_path).

Implicit Types (st : state) (el : element) (d : pydict).

Lemma page_breaks_cons el (elements : list element) :
  page_breaks (el :: elements)
  = if decide (category el = "PageBreak") then S (page_breaks elements)
    else page_breaks elements.
Proof. unfold page_breaks. rewrite filter_cons. by case_decide. Qed.

Lemma step_contiguous st el :
  contiguous st → category el ≠ "Table" →
  ∃ st', do_step st el = Return st' ∧ contiguous st'
    ∧ st_page_number st'
      = st_page_number st
        + (if decide (category el = "PageBreak") then 1 else 0).
Proof.
  intros (Hwf & Hpn & Hcur & Hkeys) Htab.
  destruct (decide (category el = "PageBreak")) as [Hpb|Hpb].
  - rewrite step_pagebreak by done. eexists. split; [done|].
    split; [|done]. split.
    { eapply (step_wf analyze to_markdown all_counter pdf_path st el);
        [exact Hwf|]. by apply step_pagebreak. }
    simpl. split; [lia|]. split; [done|].
    rewrite dict_set_new.
    + rewrite fmap_app, Hkeys. simpl.
      rewrite (seqZ_app 1 (st_page_number st) 1) by lia.
      rewrite fmap_app. f_equal.
      rewrite seqZ_cons, seqZ_nil by lia. simpl.
      by rewrite (Z.add_comm 1).
    + rewrite Hkeys. intros (n & Heq & Hn)%list_elem_of_fmap.
      apply page_key_inj_aux in Heq. apply elem_of_seqZ in Hn. lia.
  - destruct (step_text_cases analyze to_markdown all_counter pdf_path
                st el Hwf Htab Hpb) as [Hs|[sep Hs]];
      rewrite Hs; eexists; (split; [done|]); (split; [|simpl; lia]).
    + done.
    + split; [by apply wf_with_page_text|]. split; [done|]. split; [done|].
      by rewrite keys_with_page_text.
Qed.

Lemma run_contiguous (elements : list element) st :
  contiguous st → Forall (fun el => category el ≠ "Table") elements →
  ∃ st', foldR do_step st elements = Return st' ∧ contiguous st'
    ∧ st_page_number st' = st_page_number st + Z.of_nat (page_breaks elements).
Proof.
  intros Hst Hels. revert st Hst.
  induction Hels as [|el elements Hcat Hels IH]; intros st Hst.
  - exists st. split; [done|]. split; [done|]. unfold page_breaks. simpl. lia.
  - destruct (step_contiguous st el Hst Hcat) as (st1 & Hs1 & Hc1 & Hn1).
    destruct (IH st1 Hc1) as (st' & Hs' & Hc' & Hn').
    exists st'. rewrite foldR_cons, Hs1. split; [done|]. split; [done|].
    rewrite Hn', Hn1, page_breaks_cons. case_decide; lia.
Qed.

Lemma dict_set_keys_elem (k v x : string) d :
  x ∈ (dict_set k v d).*1 → x = k ∨ x ∈ d.*1.
Proof.
  destruct (decide (k ∈ d.*1)) as [Hin|Hin].
  - rewrite dict_set_keys_present by done. by right.
  - rewrite dict_set_new, fmap_app by done.
    intros [?|Hx]%elem_of_app; [by right|].
    apply list_elem_of_singleton in Hx. by left.
Qed.

Lemma step_page_keys_only st el st' :
  page_keys_only st → do_step st el = Return st' → page_keys_only st'.
Proof.
  intros [Hwf Hkeys] Hstep. split; [by eapply step_wf|].
  destruct (decide (category el = "PageBreak")) as [Hpb|Hpb].
  - rewrite step_pagebreak in Hstep by done. injection Hstep as <-. simpl.
    apply Forall_forall. intros x [->|Hx]%dict_set_keys_elem; [by eexists|].
    rewrite Forall_forall in Hkeys. by apply Hkeys.
  - destruct (decide (category el = "Table")) as [Htab|Htab].
    + rewrite step_table in Hstep by done.
      destruct (process_table_inv _ _ _ _ _ _ Hwf Hstep) as (_ & _ & _ & ->).
      done.
    + destruct (step_text_cases analyze to_markdown all_counter pdf_path
                  st el Hwf Htab Hpb) as [Hs|[sep Hs]];
        rewrite Hs in Hstep; injection Hstep as <-; [done|].
      by rewrite keys_with_page_text.
Qed.
End PageFacts.

(** Without tables the pages are contiguous: the assembler finishes, the
    running page number is one more than the number of page breaks, and
    before pruning the keys of the dict are [page_1, ..., page_n] in this
    order, the current page being the last. *)
Theorem table_free_pages analyze to_markdown all_counter pdf_path
    (elements : list element) :
  Forall (fun el => category el ≠ "Table") elements →
  ∃ st, run analyze to_markdown all_counter pdf_path elements = Return st
    ∧ st_page_number st = 1 + Z.of_nat (page_breaks elements)
    ∧ curr_page st = page_key (st_page_number st)
    ∧ (parsed_doc st).*1 = page_key <$> seqZ 1 (st_page_number st).
Proof.
  intros Hels.
  destruct (run_contiguous analyze to_markdown all_counter pdf_path
              elements init_state)
    as (st & Hrun & (_ & _ & Hcur & Hkeys) & Hn); [|done|].
  { split; [apply wf_init|]. by repeat split. }
  exists st. by repeat split.
Qed.

Lemma table_free_pages_witness :
  ∃ st, run analyze_none render_rows ∅ "doc.pdf"
          [Title "T"; PageBreak; Element "Footer" "f" no_metadata; PageBreak]
        = Return st
    ∧ st_page_number st = 1 + Z.of_nat 2
    ∧ curr_page st = page_key (st_page_number st)
    ∧ (parsed_doc st).*1 = page_key <$> seqZ 1 (st_page_number st).
Proof.
  apply (table_free_pages analyze_none render_rows ∅ "doc.pdf"
           [Title "T"; PageBreak; Element "Footer" "f" no_metadata; PageBreak]).
  solve_Forall ltac:(simpl; discriminate).
Defined.

(** The returned document is a well-formed page map: its keys are
    distinct, each key is [page_<n>] for some page number [n], and no
    value is empty. *)
Theorem output_well_formed analyze to_markdown all_counter pdf_path
    (elements : list element) (doc : pydict) :
  create_parsed_dictionary analyze to_markdown all_counter pdf_path elements
    = Return doc →
  NoDup doc.*1
  ∧ Forall (fun kv => kv.2 ≠ EmptyString ∧ ∃ n, kv.1 = page_key n) doc.
Proof.
  unfold create_parsed_dictionary.
  destruct (run _ _ _ _ elements) as [st|] eqn:Hrun; cbn [mbind result_bind];
    [|done].
  intros [= <-].
  assert (page_keys_only st) as [[Hnd _] Hkeys].
  { revert Hrun. apply (foldR_invariant page_keys_only).
    - intros s a s'. apply step_page_keys_only.
    - split; [apply wf_init|]. repeat constructor. by exists 1. }
  split.
  - eapply sublist_NoDup; [exact Hnd|]. apply fmap_sublist, sublist_filter.
  - apply Forall_forall. intros [k v] [Hv Hin]%list_elem_of_filter.
    split; [done|]. rewrite Forall_forall in Hkeys. apply Hkeys.
    apply list_elem_of_fmap. by exists (k, v).
Qed.

Lemma output_well_formed_witness :
  NoDup [("page_1", "a "); ("page_3", "b ")].*1
  ∧ Forall (fun kv => kv.2 ≠ EmptyString ∧ ∃ n, kv.1 = page_key n)
      [("page_1", "a "); ("page_3", "b ")].
Proof.
  exact (output_well_formed analyze_none render_rows
           (prepare_counter [Text "a"; PageBreak; PageBreak; Text "b"]) "doc.pdf"
           [Text "a"; PageBreak; PageBreak; Text "b"]
           [("page_1", "a "); ("page_3", "b ")] eq_refl).
Defined.

Section UnhandledFacts.
Variable analyze : string → nat → Z → list (Z * Z) → result (list (list string)).
Variable to_markdown : dataframe → string.
Variable pdf_path : string.

Lemma step_unhandled all_counter (st : state) (el : element) :
  ¬ handled el → step analyze to_markdown all_counter pdf_path st el = Return st.
Proof.
  intros Hun. unfold step.
  repeat (rewrite decide_False;
          [|intros Hcat; apply Hun; unfold handled; rewrite Hcat;
            apply list_elem_of_In; simpl; tauto]).
  done.
Qed.

Lemma foldR_step_filter all_counter (elements : list element) (st : state) :
  foldR (step analyze to_markdown all_counter pdf_path) st (filter handled elements)
  = foldR (step analyze to_markdown all_counter pdf_path) st elements.
Proof.
  revert st. induction elements as [|el elements IH]; intros st; [done|].
  rewrite filter_cons. destruct (decide (handled el)) as [Hh|Hh].
  - rewrite !foldR_cons. destruct (step _ _ _ _ st el); [apply IH|done].
  - rewrite foldR_cons, step_unhandled by done. apply IH.
Qed.

Lemma texts_of_filter_handled (cat : string) (elements : list element) :
  cat ∈ ["PageBreak"; "ListItem"; "NarrativeText"; "Table"; "Text"; "Title"] →
  texts_of cat (filter handled elements) = texts_of cat elements.
Proof.
  intros Hcat. unfold texts_of. f_equal.
  apply list_filter_filter_l. intros el <-. exact Hcat.
Qed.

Lemma prepare_counter_filter_handled (elements : list element) :
  prepare_counter (filter handled elements) = prepare_counter elements.
Proof.
  unfold prepare_counter.
  rewrite !texts_of_filter_handled; [done|..]; apply list_elem_of_In; simpl; tauto.
Qed.
End UnhandledFacts.

(** Elements of any other category (headers, footers, images, ...) are
    ignored by the whole pipeline: dropping them from the stream changes
    neither the counter nor the assembled document nor a failure. *)
Theorem unhandled_ignored analyze to_markdown pdf_path (elements : list element) :
  parse_document analyze to_markdown pdf_path (filter handled elements)
  = parse_document analyze to_markdown pdf_path elements.
Proof.
  unfold parse_document, create_parsed_dictionary, run.
  by rewrite prepare_counter_filter_handled, foldR_step_filter.
Qed.

Lemma table_step_equation_witness :
  let raw :=
    ["<Cell: (1,1), Span: (1, 1), Column Header: True, MergedCell: False>  Name";
     "<Cell: (2,1), Span: (1, 1), Column Header: False, MergedCell: False>  Ann"] in
  step (analyze_cells raw) render_rows (Counter ["a"]) "doc.pdf"
       (State [("page_1", "a ")] "page_1" 1 0) (Table 3)
  = Return (State [("page_1", "a " +:+ nl +:+ "Name" +:+ nl +:+ "Ann" +:+ nl)]
                  "page_1" 3 1).
Proof.
  exact (table_step_equation
    (analyze_cells
      ["<Cell: (1,1), Span: (1, 1), Column Header: True, MergedCell: False>  Name";
       "<Cell: (2,1), Span: (1, 1), Column Header: False, MergedCell: False>  Ann"])
    render_rows (Counter ["a"]) "doc.pdf"
    [Text "a"] (State [("page_1", "a ")] "page_1" 1 0) (Table 3)
    eq_refl eq_refl).
Defined.

Lemma assembler_failure_source_witness :
  ∃ pre el post st,
    [Text "a"; PageBreak; Table 2; Text "b"] = pre ++ el :: post
    ∧ category el = "Table"
    ∧ run analyze_down render_rows (Counter ["a"; "b"]) "doc.pdf" pre = Return st
    ∧ process_table analyze_down render_rows "doc.pdf" st el
      = Raise (ExternalError "timeout").
Proof.
  exact (assembler_failure_source analyze_down render_rows (Counter ["a"; "b"])
           "doc.pdf" [Text "a"; PageBreak; Table 2; Text "b"]
           (ExternalError "timeout") eq_refl).
Defined.

Lemma table_step_errors_witness :
  analyze_cells [""] "doc.pdf" 0%nat 1 [(0, 0); (10, 10)] = Raise AttributeError
  ∨ AttributeError = AttributeError ∨ AttributeError = ValueError
  ∨ AttributeError = IndexError.
Proof.
  exact (table_step_errors (analyze_cells [""]) render_rows ∅ "doc.pdf"
           [] init_state (Table 1) AttributeError eq_refl eq_refl).
Defined.

Lemma step_frame_witness :
  let st := State [("page_1", "a "); ("page_2", EmptyString)] "page_2" 2 0 in
  let st' := State [("page_1", "a "); ("page_2", "b ")] "page_2" 2 0 in
  curr_page st' = curr_page st
  ∧ (parsed_doc st').*1 = (parsed_doc st).*1
  ∧ (∀ k, k ≠ curr_page st →
       dict_get k (parsed_doc st') = dict_get k (parsed_doc st))
  ∧ ∃ added, dict_get (curr_page st) (parsed_doc st')
             = Some (page_text st +:+ added).
Proof.
  exact (step_frame analyze_none render_rows (Counter ["a"; "b"]) "doc.pdf"
           [Text "a"; PageBreak]
           (State [("page_1", "a "); ("page_2", EmptyString)] "page_2" 2 0)
           (Text "b")
           (State [("page_1", "a "); ("page_2", "b ")] "page_2" 2 0)
           eq_refl ltac:(discriminate) eq_refl).
Defined.

(** ** [extract_page_as_image] *)

Section CropFacts.
Implicit Types (l : list Z) (pts : list (Z * Z)).

Lemma foldl_min_spec l (x : Z) : is_min (foldl Z.min x l) (x :: l).
Proof.
  revert x. induction l as [|y l IH]; intros x; simpl.
  - split; [by left|]. by repeat constructor.
  - destruct (IH (x `min` y)) as [Hin Hle]. split.
    + apply elem_of_cons in Hin as [->|Hin]; [|by do 2 right].
      destruct (Z.min_spec x y) as [[_ ->]|[_ ->]]; [|right]; by left.
    + inversion_clear Hle as [|?? Hxy Hl].
      repeat constructor; [lia|lia|done].
Qed.

Lemma py_min_spec l : l ≠ [] → ∃ m, py_min l = Return m ∧ is_min m l.
Proof.
  destruct l as [|x l]; [done|]. intros _.
  eexists; split; [done|]. apply foldl_min_spec.
Qed.

(** The four extrema of a non-empty list of points. *)
Lemma crop_extrema pts :
  pts ≠ [] →
  ∃ x0 y0 x1 y1,
    py_min (fst <$> pts) = Return x0 ∧ py_min (snd <$> pts) = Return y0
    ∧ py_max (fst <$> pts) = Return x1 ∧ py_max (snd <$> pts) = Return y1
    ∧ Forall (fun p => x0 ≤ p.1 ≤ x1 ∧ y0 ≤ p.2 ≤ y1) pts
    ∧ (∃ p, p ∈ pts ∧ p.1 = x0) ∧ (∃ p, p ∈ pts ∧ p.2 = y0)
    ∧ (∃ p, p ∈ pts ∧ p.1 = x1) ∧ (∃ p, p ∈ pts ∧ p.2 = y1).
Proof.
  intros Hne.
  assert (fst <$> pts ≠ [] ∧ snd <$> pts ≠ []) as [Hf Hs]
    by (by destruct pts).
  destruct (py_min_spec _ Hf) as (x0 & -> & Hx0in & Hx0).
  destruct (py_min_spec _ Hs) as (y0 & -> & Hy0in & Hy0).
  destruct (py_max_spec _ Hf) as (x1 & -> & Hx1in & Hx1).
  destruct (py_max_spec _ Hs) as (y1 & -> & Hy1in & Hy1).
  exists x0, y0, x1, y1. repeat split; try done.
  - rewrite Forall_fmap in Hx0, Hy0, Hx1, Hy1.
    rewrite Forall_forall in Hx0, Hy0, Hx1, Hy1.
    apply Forall_forall. intros p Hp.
    specialize (Hx0 p Hp). specialize (Hy0 p Hp).
    specialize (Hx1 p Hp). specialize (Hy1 p Hp). simpl in *. lia.
  - apply list_elem_of_fmap in Hx0in as (p & -> & Hp). by exists p.
  - apply list_elem_of_fmap in Hy0in as (p & -> & Hp). by exists p.
  - apply list_elem_of_fmap in Hx1in as (p & -> & Hp). by exists p.
  - apply list_elem_of_fmap in Hy1in as (p & -> & Hp). by exists p.
Qed.
End CropFacts.

(** The crop never raises and is clamped on four sides: without points
    there is no crop, and with points the box starts at or after 0 on the
    left and top and ends at or before the page width and height on the
    right and bottom. *)
Theorem crop_box_clamped (width height extra_margin_px : Z) (pts : list (Z * Z)) :
  ∃ box, crop_box width height extra_margin_px pts = Return box
    ∧ (box = None ↔ pts = [])
    ∧ ∀ left top right bottom, box = Some (left, top, right, bottom) →
        0 ≤ left ∧ 0 ≤ top ∧ right ≤ width ∧ bottom ≤ height.
Proof.
  destruct pts as [|p pts]; [by exists None|].
  destruct (crop_extrema (p :: pts)) as (x0 & y0 & x1 & y1 & H0 & H1 & H2 & H3 & _);
    [done|].
  unfold crop_box. rewrite H0, H1, H2, H3. cbn [mbind result_bind].
  eexists. split; [done|]. split; [done|].
  intros left top right bottom [= <- <- <- <-]. lia.
Qed.

Lemma crop_box_clamped_witness :
  ∃ box, crop_box 100 100 5 [(150, 20); (90, 98)] = Return box
    ∧ (box = None ↔ [(150, 20); (90, 98)] = [])
    ∧ ∀ left top right bottom, box = Some (left, top, right, bottom) →
        0 ≤ left ∧ 0 ≤ top ∧ right ≤ 100 ∧ bottom ≤ 100.
Proof. exact (crop_box_clamped 100 100 5 [(150, 20); (90, 98)]). Defined.

(** For points on the page and a margin that is not negative, the crop box
    is a proper rectangle on the page that contains every point. *)
Theorem crop_box_contains (width height extra_margin_px : Z) (pts : list (Z * Z)) :
  0 ≤ extra_margin_px → pts ≠ [] →
  Forall (fun p => 0 ≤ p.1 ≤ width ∧ 0 ≤ p.2 ≤ height) pts →
  ∃ left top right bottom,
    crop_box width height extra_margin_px pts
      = Return (Some (left, top, right, bottom))
    ∧ 0 ≤ left ≤ right ∧ right ≤ width ∧ 0 ≤ top ≤ bottom ∧ bottom ≤ height
    ∧ Forall (fun p => left ≤ p.1 ≤ right ∧ top ≤ p.2 ≤ bottom) pts.
Proof.
  intros Hm Hne Hin.
  destruct (crop_extrema pts Hne)
    as (x0 & y0 & x1 & y1 & H0 & H1 & H2 & H3 & Hbox
        & (p0 & Hp0 & Hx0) & (q0 & Hq0 & Hy0) & (p1 & Hp1 & Hx1) & (q1 & Hq1 & Hy1)).
  unfold crop_box. destruct pts as [|p pts]; [done|].
  rewrite H0, H1, H2, H3. cbn [mbind result_bind].
  do 4 eexists. split; [done|].
  rewrite Forall_forall in Hin, Hbox.
  pose proof (Hin p0 Hp0). pose proof (Hin q0 Hq0).
  pose proof (Hin p1 Hp1). pose proof (Hin q1 Hq1).
  pose proof (Hbox p0 Hp0). pose proof (Hbox q0 Hq0).
  repeat split; try lia;
    apply Forall_forall; intros r Hr;
    specialize (Hin r Hr); specialize (Hbox r Hr); lia.
Qed.

Lemma crop_box_contains_witness :
  ∃ left top right bottom,
    crop_box 100 200 3 [(10, 20); (50, 5); (30, 199)]
      = Return (Some (left, top, right, bottom))
    ∧ 0 ≤ left ≤ right ∧ right ≤ 100 ∧ 0 ≤ top ≤ bottom ∧ bottom ≤ 200
    ∧ Forall (fun p => left ≤ p.1 ≤ right ∧ top ≤ p.2 ≤ bottom)
        [(10, 20); (50, 5); (30, 199)].
Proof.
  apply (crop_box_contains 100 200 3 [(10, 20); (50, 5); (30, 199)]).
  - lia.
  - done.
  - solve_Forall ltac:(simpl; lia).
Defined.

(** With the default margin and points on the page, the crop of
    [utils.py] is the crop of [parse_document.py]: the exact bounding box
    of the points. *)
Theorem crop_box_agrees (width height : Z) (pts : list (Z * Z)) :
  Forall (fun p => 0 ≤ p.1 ≤ width ∧ 0 ≤ p.2 ≤ height) pts →
  crop_box width height 0 pts = crop_box_plain pts.
Proof.
  intros Hin. destruct pts as [|p pts]; [done|].
  destruct (crop_extrema (p :: pts))
    as (x0 & y0 & x1 & y1 & H0 & H1 & H2 & H3 & Hbox
        & (p0 & Hp0 & Hx0) & (q0 & Hq0 & Hy0) & (p1 & Hp1 & Hx1) & (q1 & Hq1 & Hy1));
    [done|].
  unfold crop_box, crop_box_plain. rewrite H0, H1, H2, H3.
  cbn [mbind result_bind].
  rewrite Forall_forall in Hin.
  pose proof (Hin p0 Hp0). pose proof (Hin q0 Hq0).
  pose proof (Hin p1 Hp1). pose proof (Hin q1 Hq1).
  do 2 f_equal. repeat f_equal; lia.
Qed.

Lemma crop_box_agrees_witness :
  crop_box 100 200 0 [(10, 20); (50, 5)] = crop_box_plain [(10, 20); (50, 5)].
Proof.
  apply (crop_box_agrees 100 200 [(10, 20); (50, 5)]).
  solve_Forall ltac:(simpl; lia).
Defined.

(** ** The output path of [parse_document.py] *)

Section ReplaceFacts.
Implicit Types (old new s t a b : string).

Lemma prefix_app_long old s t :
  (String.length old ≤ String.length s)%nat →
  String.prefix old (s +:+ t) = String.prefix old s.
Proof.
  revert s. induction old as [|a old IH]; intros s Hlen.
  - by destruct s, t.
  - destruct s as [|b s]; [simpl in Hlen; lia|].
    rewrite app_cons. simpl. destruct (ascii_dec a b); [|done].
    apply IH. simpl in Hlen. lia.
Qed.
End ReplaceFacts.

(** A path in which [.pdf] does not occur, such as one ending in [.PDF],
    is returned as it is: the JSON is then written over the input
    document. *)
Theorem json_path_no_pdf (document_path : string) :
  occurs ".pdf" document_path = false → json_path document_path = document_path.
Proof.
  unfold json_path, str_replace_all.
  induction document_path as [|c s IH]; [done|].
  cbn [occurs]. intros [Hp Ho]%orb_false_iff.
  cbn [str_replace_all_go]. rewrite Hp. by rewrite IH.
Qed.

Lemma json_path_no_pdf_witness : json_path "scans/report.PDF" = "scans/report.PDF".
Proof. apply (json_path_no_pdf "scans/report.PDF"). reflexivity. Defined.

(** Every occurrence of [.pdf] is replaced, wherever it stands: up to and
    including its first occurrence the path [a.pdf b] becomes [a.json],
    and what follows is rewritten in the same way, directory names
    included. *)
Theorem json_path_first (a b : string) :
  occurs ".pdf" (a +:+ ".pd") = false →
  json_path (a +:+ ".pdf" +:+ b) = a +:+ ".json" +:+ json_path b.
Proof.
  unfold json_path, str_replace_all.
  induction a as [|c a IH]; [intros _; by destruct b|].
  change (String c a +:+ ".pd") with (String c (a +:+ ".pd")).
  change (String c a +:+ ".pdf" +:+ b) with (String c (a +:+ ".pdf" +:+ b)).
  change (String c a +:+ ?t) with (String c (a +:+ t)).
  cbn [occurs]. intros [Hp Ho]%orb_false_iff.
  cbn [str_replace_all_go].
  assert (String.prefix ".pdf" (String c (a +:+ ".pdf" +:+ b)) = false) as ->.
  { etrans; [|exact Hp].
    change (String c (a +:+ ".pdf" +:+ b))
      with (String c a +:+ (".pd" +:+ ("f" +:+ b))).
    change (String c (a +:+ ".pd")) with (String c a +:+ ".pd").
    rewrite <- app_assoc. apply prefix_app_long.
    rewrite str_length_app. simpl. lia. }
  by rewrite IH.
Qed.

Lemma json_path_first_witness :
  json_path ("in.d/report" +:+ ".pdf" +:+ "") = "in.d/report" +:+ ".json" +:+ json_path "".
Proof. apply (json_path_first "in.d/report" ""). reflexivity. Defined.

(** A directory whose name contains [.pdf] is renamed in the output path
    as well. *)
Example json_path_directory_example :
  json_path "archive.pdf/report.pdf" = "archive.json/report.json".
Proof. reflexivity. Qed.

(** ** The assembler of [parse_document.py] *)

Section HtmlFacts.
Variable analyze : string → nat → Z → list (Z * Z) → result (list string).
Variable all_counter : gmap string nat.
Variable pdf_path : string.

Local Abbreviation html_step := (ParseDocument.step analyze all_counter pdf_path).
Local Abbreviation html_run := (ParseDocument.run analyze all_counter pdf_path).
Local Abbreviation html_table := (ParseDocument.process_table analyze pdf_path).

Implicit Types (st : state) (el : element) (d : pydict).

Lemma add_table_loop (cur v : string) (tables : list string) d :
  dict_get cur d = Some v →
  foldR (ParseDocument.add_table cur) d tables
  = Return (dict_set cur (v +:+ str_concat ((fun t => t +:+ nl) <$> tables)) d).
Proof.
  revert d v. induction tables as [|t tables IH]; intros d v Hv.
  - cbn. rewrite app_nil_r. by rewrite dict_set_same.
  - rewrite foldR_cons.
    change (ParseDocument.add_table cur d t)
      with (d1 ← dict_iadd cur t d; dict_iadd cur nl d1).
    rewrite (dict_iadd_twice cur t nl v d Hv). cbn [mbind result_bind].
    rewrite (IH _ (v +:+ t +:+ nl)) by apply dict_get_set_eq.
    rewrite dict_set_set, fmap_cons, str_concat_cons.
    by rewrite !app_assoc.
Qed.

Lemma html_table_equation st el :
  wf_state st →
  html_table st el
  = tables ← analyze pdf_path (calls st) (page_number (metadata el))
                     (points (metadata el));
    Return (State
      (dict_set (curr_page st)
         (page_text st +:+ nl +:+ str_concat ((fun t => t +:+ nl) <$> tables))
         (parsed_doc st))
      (curr_page st) (page_number (metadata el)) (S (calls st))).
Proof.
  intros [_ [v Hv]]. unfold ParseDocument.process_table, page_text. rewrite Hv.
  rewrite (dict_iadd_Some _ _ _ _ Hv). cbn [mbind result_bind default from_option].
  destruct (analyze _ _ _ _) as [tables|e]; cbn [mbind result_bind]; [|done].
  rewrite (add_table_loop _ (v +:+ nl)) by apply dict_get_set_eq.
  cbn [mbind result_bind]. by rewrite dict_set_set, app_assoc.
Qed.

Lemma html_step_table st el :
  category el = "Table" → html_step st el = html_table st el.
Proof.
  intros Hcat. unfold ParseDocument.step. rewrite Hcat.
  repeat (rewrite decide_False by done). by rewrite decide_True.
Qed.

(** Outside the [Table] branch the two assemblers take the same step. *)
Lemma html_step_other (analyze' : string → nat → Z → list (Z * Z) → result (list (list string)))
    (to_markdown : dataframe → string) st el :
  category el ≠ "Table" →
  html_step st el = step analyze' to_markdown all_counter pdf_path st el.
Proof.
  intros Hcat. unfold ParseDocument.step, step.
  repeat case_decide; done.
Qed.

Lemma html_step_wf st el st' : wf_state st → html_step st el = Return st' → wf_state st'.
Proof.
  intros Hwf. destruct (decide (category el = "Table")) as [Hcat|Hcat].
  - rewrite html_step_table, html_table_equation by done.
    destruct (analyze _ _ _ _); cbn [mbind result_bind]; [|done].
    intros [= <-]. by apply wf_doc_set.
  - rewrite (html_step_other analyze_none (fun _ => EmptyString)) by done.
    apply step_wf. done.
Qed.

Lemma html_run_wf (elements : list element) st :
  html_run elements = Return st → wf_state st.
Proof.
  apply (foldR_invariant wf_state); [|apply wf_init].
  intros s a s'. apply html_step_wf.
Qed.
End HtmlFacts.

(** The two assemblers differ in the [Table] branch only: on a stream
    without [Table] elements, [create_parsed_dictionary] of
    [parse_document.py] and of [utils.py] return the same document,
    whatever their collaborators are. *)
Theorem assemblers_agree_without_tables
    (analyze_html : string → nat → Z → list (Z * Z) → result (list string))
    (analyze : string → nat → Z → list (Z * Z) → result (list (list string)))
    (to_markdown : dataframe → string)
    (all_counter : gmap string nat) (pdf_path : string) (elements : list element) :
  Forall (fun el => category el ≠ "Table") elements →
  ParseDocument.create_parsed_dictionary analyze_html all_counter pdf_path elements
  = create_parsed_dictionary analyze to_markdown all_counter pdf_path elements.
Proof.
  intros Hels.
  unfold ParseDocument.create_parsed_dictionary, create_parsed_dictionary.
  unfold ParseDocument.run, run. f_equal.
  generalize init_state as st. induction Hels as [|el elements Hcat Hels IH];
    intros st; [done|].
  rewrite !foldR_cons. rewrite (html_step_other _ _ _ analyze to_markdown) by done.
  destruct (step _ _ _ _ st el); cbn [mbind result_bind]; [apply IH|done].
Qed.

Lemma assemblers_agree_without_tables_witness :
  ParseDocument.create_parsed_dictionary html_down (Counter ["a"]) "doc.pdf"
    [Text "a"; PageBreak; Title "t"]
  = create_parsed_dictionary analyze_down render_rows (Counter ["a"]) "doc.pdf"
      [Text "a"; PageBreak; Title "t"].
Proof.
  apply (assemblers_agree_without_tables html_down analyze_down render_rows
           (Counter ["a"]) "doc.pdf" [Text "a"; PageBreak; Title "t"]).
  solve_Forall ltac:(simpl; discriminate).
Defined.

(** The assembler of [parse_document.py] parses no cells, so it fails only
    when its collaborators fail: if it raises [e], the elements before
    some [Table] element were processed and the service call made for that
    table raised [e]. *)
Theorem html_assembler_failure
    (analyze_html : string → nat → Z → list (Z * Z) → result (list string))
    (all_counter : gmap string nat) (pdf_path : string)
    (elements : list element) (e : exn) :
  ParseDocument.create_parsed_dictionary analyze_html all_counter pdf_path elements
    = Raise e →
  ∃ pre el post st,
    elements = pre ++ el :: post ∧ category el = "Table"
    ∧ ParseDocument.run analyze_html all_counter pdf_path pre = Return st
    ∧ analyze_html pdf_path (calls st) (page_number (metadata el))
        (points (metadata el)) = Raise e.
Proof.
  unfold ParseDocument.create_parsed_dictionary.
  destruct (ParseDocument.run _ _ _ elements) as [st|e'] eqn:Hrun;
    cbn [mbind result_bind]; [done|].
  intros [= <-].
  apply foldR_Raise_split in Hrun as (pre & el & post & st & -> & Hpre & Hstep).
  exists pre, el, post, st.
  pose proof (html_run_wf _ _ _ _ _ Hpre) as Hwf.
  destruct (decide (category el = "Table")) as [Hcat|Hcat].
  - rewrite html_step_table, html_table_equation in Hstep by done.
    destruct (analyze_html _ _ _ _) as [tables|e1]; cbn [mbind result_bind] in Hstep;
      [done|]. by injection Hstep as ->.
  - rewrite (html_step_other _ _ _ analyze_none (fun _ => EmptyString)) in Hstep
      by done.
    destruct (step_no_table analyze_none (fun _ => EmptyString) all_counter
                pdf_path st el Hwf Hcat) as [st' Hst']. congruence.
Qed.

Lemma html_assembler_failure_witness :
  ∃ pre el post st,
    [Text "a"; Table 1; Text "b"] = pre ++ el :: post ∧ category el = "Table"
    ∧ ParseDocument.run html_down (Counter ["a"]) "doc.pdf" pre = Return st
    ∧ html_down "doc.pdf" (calls st) (page_number (metadata el))
        (points (metadata el)) = Raise (ExternalError "timeout").
Proof.
  exact (html_assembler_failure html_down (Counter ["a"]) "doc.pdf"
           [Text "a"; Table 1; Text "b"] (ExternalError "timeout") eq_refl).
Defined.

(** With a table found by the service the older assembler inlines the
    rendering it is given. *)
Example html_table_example :
  ParseDocument.create_parsed_dictionary (html_tables ["<table/>"]) ∅ "doc.pdf"
    [Table 1]
  = Return [("page_1", nl +:+ "<table/>" +:+ nl)].
Proof. reflexivity. Qed.
